(** * Custom oracle updater: delivery protocol, payload layout, update policy

    A shallow embedding of the two oracle update scripts (the one that
    prices a pair from Jupiter routes, and [update_msol_oracle.ts] for the
    Marinade mSOL price) and of the properties their specification states.

    Conventions of the embedding.
    - Millisecond quantities ([Date.now()], [getUnixTs()], intervals and
      durations) are integers: [Z].
    - Prices, thresholds and the confidence are JavaScript numbers, that
      is binary64 doubles.  A number is embedded as the rational [Q] it
      denotes, and an arithmetic operation of the scripts or of the
      payload layout as the exact operation followed by [round64], the
      rounding to the nearest double, ties to even.  The exponent range is
      not bounded: NaN, infinities, overflow and subnormal numbers are
      outside the model.  The mid-price [getMarkPrice] is taken exactly.
    - A JavaScript value used as a condition is tested with its truthiness:
      a number is truthy when it is not zero.
    - A function that can throw returns a [Result]. *)

From Stdlib Require Import ZArith QArith Qabs Qround Bool List String Lia Lqa.
Import ListNotations.

Local Open Scope Z_scope.

(** ** JavaScript values *)

Module Js.

Inductive Exn : Type :=
| AssertionError
| RangeError
| NetworkError (what : string).

Inductive Result (A : Type) : Type :=
| Ok (a : A)
| Throw (e : Exn).
Arguments Ok {A} a.
Arguments Throw {A} e.

Definition bind {A B} (r : Result A) (k : A -> Result B) : Result B :=
  match r with
  | Ok a => k a
  | Throw e => Throw e
  end.

(** Truthiness of a number. *)
Definition truthyZ (z : Z) : bool := negb (z =? 0).
Definition truthyQ (q : Q) : bool := negb (Qeq_bool q 0).

(** [x < y] on rationals, as a boolean. *)
Definition Qltb (x y : Q) : bool := negb (Qle_bool y x).

(** [setTimeout(r, ms)]: the timer fires [ms] milliseconds later; Node
    replaces a delay below 1 or above 2^31 - 1 by 1.  Timers are taken as
    exact (no lateness). *)
Definition timerDelay (ms : Z) : Z :=
  if (ms <? 1) || (2147483647 <? ms) then 1 else ms.

(** The nearest integer to [n / d], ties to even, for [0 <= n], [0 < d]. *)
Definition roundHalfEven (n d : Z) : Z :=
  let q := n / d in
  match 2 * (n mod d) ?= d with
  | Lt => q
  | Gt => q + 1
  | Eq => if Z.even q then q else q + 1
  end.

(** The exponent [e] of the unit in the last place of [a / b], for
    [0 < a]: the one with [2^52 <= (a / b) / 2^e < 2^53]. *)
Definition exponent64 (a : Z) (b : positive) : Z :=
  let s := Z.log2 (Z.pos b) + 54 in
  Z.log2 (a * 2 ^ s / Z.pos b) - s - 52.

(** Rounding to binary64: the nearest number with a significand of 53
    bits, ties to even. *)
Definition round64 (q : Q) : Q :=
  let a := Z.abs (Qnum q) in
  if a =? 0 then 0%Q
  else
    let e := exponent64 a (Qden q) in
    let n := roundHalfEven (a * 2 ^ Z.max 0 (- e))
                           (Z.pos (Qden q) * 2 ^ Z.max 0 e) in
    Qred (inject_Z (Z.sgn (Qnum q) * n * 2 ^ Z.max 0 e)
          / inject_Z (2 ^ Z.max 0 (- e))).

(** The operators [-], [*] and [/] on numbers. *)
Definition fsub (x y : Q) : Q := round64 (x - y).
Definition fmul (x y : Q) : Q := round64 (x * y).
Definition fdiv (x y : Q) : Q := round64 (x / y).

(** A rational that is a double: a significand of at most 53 bits times
    a power of two. *)
Definition representable64 (q : Q) : Prop :=
  exists m u v : Z,
    Z.abs m <= 2 ^ 53 /\ 0 <= u /\ 0 <= v
    /\ (q * inject_Z (2 ^ v) == inject_Z (m * 2 ^ u))%Q.

End Js.

Import Js.

Notation "x <- c1 ;; c2" := (Js.bind c1 (fun x => c2))
  (at level 61, c1 at next level, right associativity).

(** ** The delivery protocol: [transactionSenderAndConfirmationWaiter] *)

Module Delivery.

Definition TX_DURATION : Z := 120000.

(** The literal of [sleep(1500)] raced against [getTransaction]. *)
Definition CONFIRMATION_WAIT : Z := 1500.

Record Params : Type := {
  timeout : Z;
  pollInterval : Z;
  sendInterval : Z;
  sendRetries : Z
}.

(** The defaults of the signature; [updatePrice] passes none of them. *)
Definition defaultParams : Params :=
  {| timeout := TX_DURATION; pollInterval := 1000;
     sendInterval := 5000; sendRetries := 40 |}.

Definition Txid : Type := string.

Inductive TransactionResponse : Type :=
| Confirmed (slot : Z).

(** What the connection does with one [sendRawTransaction]. *)
Inductive SendOutcome : Type :=
| Sent (latency : N) (txid : Txid)
| SendFails (latency : N).

(** What the connection does with one [getTransaction]: it fulfils with
    a response, fulfils with [null], rejects, or never settles. *)
Inductive QueryOutcome : Type :=
| Found (latency : N) (r : TransactionResponse)
| NotFound (latency : N)
| QueryFails (latency : N)
| Unanswered.

(** The broadcast channel as the protocol meets it: the first send, the
    k-th send of the loop, the query of the i-th iteration. *)
Record Channel : Type := {
  firstSend : SendOutcome;
  resend : nat -> SendOutcome;
  query : nat -> QueryOutcome
}.

(** [await Promise.any([getTransaction(..), sleep(1500)])]: the first
    promise to fulfil gives the value; a rejection is passed over.  The
    result is the time the await takes and the value of [response]
    ([None] for [null] and for the [undefined] of [sleep]).  A query that
    fulfils in the very millisecond the wait ends counts as late. *)
Definition race (q : QueryOutcome) : Z * option TransactionResponse :=
  match q with
  | Found l r =>
      if Z.of_N l <? timerDelay CONFIRMATION_WAIT then (Z.of_N l, Some r)
      else (timerDelay CONFIRMATION_WAIT, None)
  | NotFound l =>
      if Z.of_N l <? timerDelay CONFIRMATION_WAIT then (Z.of_N l, None)
      else (timerDelay CONFIRMATION_WAIT, None)
  | QueryFails _ | Unanswered => (timerDelay CONFIRMATION_WAIT, None)
  end.

(** How the returned promise settles. *)
Inductive Settled : Type :=
| Fulfilled (txid : Txid) (transactionResponse : option TransactionResponse)
| Rejected (e : Exn).

(** One invocation, observed from outside: how it settled, the value of
    [start], the time it settled, and how many [sendRawTransaction] calls
    it made. *)
Record Run : Type := {
  settled : Settled;
  startedAt : Z;
  settledAt : Z;
  broadcasts : Z
}.

(** The variables of the loop, with the clock read by [getUnixTs()]. *)
Record Loop : Type := {
  clock : Z;
  lastSendTimestamp : Z;
  retries : Z;
  polls : nat
}.

Inductive Step : Type :=
| Return (r : Run)
| Continue (l : Loop).

(** The rest of an iteration once the send of the iteration, if any, has
    taken [d] milliseconds: the race, then [return] or [sleep(pollInterval)]. *)
Definition poll (ch : Channel) (p : Params) (txid : Txid) (start : Z)
  (l : Loop) (d : Z) : Step :=
  let (w, response) := race (query ch (polls l)) in
  match response with
  | Some r =>
      Return {| settled := Fulfilled txid (Some r);
                startedAt := start;
                settledAt := clock l + d + w;
                broadcasts := retries l + 1 |}
  | None =>
      Continue {| clock := clock l + d + w + timerDelay (pollInterval p);
                  lastSendTimestamp := lastSendTimestamp l;
                  retries := retries l;
                  polls := S (polls l) |}
  end.

(** The body of the [while] loop, entered at [clock l]. *)
Definition iteration (ch : Channel) (p : Params) (txid : Txid) (start : Z)
  (l : Loop) : Step :=
  let timestamp := clock l in
  if (retries l <? sendRetries p)
     && (sendInterval p <? timestamp - lastSendTimestamp l)
  then
    let l' := {| clock := clock l; lastSendTimestamp := timestamp;
                 retries := retries l + 1; polls := polls l |} in
    match resend ch (Z.to_nat (retries l)) with
    | SendFails d =>
        Return {| settled := Rejected (NetworkError "sendRawTransaction");
                  startedAt := start;
                  settledAt := timestamp + Z.of_N d;
                  broadcasts := retries l' + 1 |}
    | Sent d _ => poll ch p txid start l' (Z.of_N d)
    end
  else poll ch p txid start l 0.

(** [while (getUnixTs() - start < timeout) { ... } return {txid, null}] *)
Fixpoint loop (fuel : nat) (ch : Channel) (p : Params) (txid : Txid)
  (start : Z) (l : Loop) : option Run :=
  match fuel with
  | O => None
  | S fuel' =>
      if clock l - start <? timeout p then
        match iteration ch p txid start l with
        | Return r => Some r
        | Continue l' => loop fuel' ch p txid start l'
        end
      else
        Some {| settled := Fulfilled txid None;
                startedAt := start;
                settledAt := clock l;
                broadcasts := retries l + 1 |}
  end.

(** The whole function, called at time [t0]. *)
Definition transactionSenderAndConfirmationWaiter (fuel : nat)
  (ch : Channel) (p : Params) (t0 : Z) : option Run :=
  match firstSend ch with
  | SendFails d =>
      Some {| settled := Rejected (NetworkError "sendRawTransaction");
              startedAt := t0 + Z.of_N d;
              settledAt := t0 + Z.of_N d;
              broadcasts := 1 |}
  | Sent d txid =>
      let start := t0 + Z.of_N d in
      loop fuel ch p txid start
        {| clock := start; lastSendTimestamp := start;
           retries := 0; polls := 0 |}
  end.

(** Iterations that always suffice: every iteration takes a millisecond
    or more. *)
Definition enoughFuel (p : Params) : nat := S (Z.to_nat (timeout p)).

(** A channel that accepts every send. *)
Definition accepts (ch : Channel) : Prop :=
  (exists d txid, firstSend ch = Sent d txid)
  /\ forall k, exists d txid, resend ch k = Sent d txid.

(** A channel that never reports a confirmation. *)
Definition neverConfirms (ch : Channel) : Prop :=
  forall i d r, query ch i <> Found d r.

(** Whether the iteration entered with [l] sends the transaction again,
    and the time that send takes (0 when none is made). *)
Definition resendDue (p : Params) (l : Loop) : bool :=
  (retries l <? sendRetries p)
  && (sendInterval p <? clock l - lastSendTimestamp l).

Definition sendLatency (ch : Channel) (p : Params) (l : Loop) : Z :=
  if resendDue p l then
    match resend ch (Z.to_nat (retries l)) with
    | Sent d _ | SendFails d => Z.of_N d
    end
  else 0.

(** The variables of the loop after the send of the iteration, if any. *)
Definition afterSend (p : Params) (l : Loop) : Loop :=
  if resendDue p l then
    {| clock := clock l; lastSendTimestamp := clock l;
       retries := retries l + 1; polls := polls l |}
  else l.

End Delivery.

(** ** The update payload: [composeUpdatePriceTransaction] *)

Module Payload.

(** A byte of the [Buffer] is an integer in [0, 256). *)
Definition Bytes : Type := list Z.

Definition V2E32 : Z := 2 ^ 32.

(** Modelled from the spec: the little-endian integer writers and readers
    of the wire format ([Buffer.writeUInt32LE] and the like, reached through
    the layouts [u8], [u32], [ns64] and [nu64] of the buffer-layout package,
    which is not part of the repository).  A writer refuses a value outside
    the range of its field and stores the integer part of the value, byte
    by byte from the lowest. *)
Fixpoint le_bytes (n : nat) (v : Z) : Bytes :=
  match n with
  | O => []
  | S n' => v mod 256 :: le_bytes n' (v / 256)
  end.

Fixpoint le_value (bs : Bytes) : Z :=
  match bs with
  | [] => 0
  | b :: bs' => b + 256 * le_value bs'
  end.

Definition Qtrunc (q : Q) : Z :=
  if Qle_bool 0 q then Qfloor q else Qceiling q.

Definition writeIntLE (n : nat) (lo hi : Z) (value : Q) : Result Bytes :=
  if Qltb (inject_Z hi) value || Qltb value (inject_Z lo)
  then Throw RangeError
  else Ok (le_bytes n (Qtrunc value)).

Definition writeUInt8 : Q -> Result Bytes := writeIntLE 1 0 255.
Definition writeUInt32LE : Q -> Result Bytes := writeIntLE 4 0 (2 ^ 32 - 1).
Definition writeInt32LE : Q -> Result Bytes :=
  writeIntLE 4 (- 2 ^ 31) (2 ^ 31 - 1).

Definition readUInt32LE (bs : Bytes) : Z := le_value (firstn 4 bs).
Definition readInt32LE (bs : Bytes) : Z :=
  let u := readUInt32LE bs in if u <? 2 ^ 31 then u else u - 2 ^ 32.

(** [divmodInt64] and [roundedInt64] of the 64-bit layouts:
    [hi32 = Math.floor(src / V2E32)], [lo32 = src - (hi32 * V2E32)]. *)
Definition divmodInt64 (src : Q) : Z * Q :=
  let hi32 := Qfloor (fdiv src (inject_Z V2E32)) in
  (hi32, fsub src (fmul (inject_Z hi32) (inject_Z V2E32))).

Definition roundedInt64 (hi32 lo32 : Z) : Z := hi32 * V2E32 + lo32.

Definition ns64_encode (src : Q) : Result Bytes :=
  let (hi32, lo32) := divmodInt64 src in
  lo <- writeUInt32LE lo32 ;;
  hi <- writeInt32LE (inject_Z hi32) ;;
  Ok (lo ++ hi).

Definition nu64_encode (src : Q) : Result Bytes :=
  let (hi32, lo32) := divmodInt64 src in
  lo <- writeUInt32LE lo32 ;;
  hi <- writeUInt32LE (inject_Z hi32) ;;
  Ok (lo ++ hi).

Definition ns64_decode (bs : Bytes) : Z :=
  roundedInt64 (readInt32LE (skipn 4 bs)) (readUInt32LE bs).

Definition nu64_decode (bs : Bytes) : Z :=
  roundedInt64 (readUInt32LE (skipn 4 bs)) (readUInt32LE bs).

(** The object given to [dataLayout.encode]. *)
Record Fields : Type := {
  instruction : Q;
  price : Q;
  confidence : Q;
  status : Q
}.

(** [struct([u8('instruction'), ns64('price'), nu64('confidence'),
    u32('status')])]: the fields in this order, 1 + 8 + 8 + 4 bytes. *)
Definition span : nat := 21.

Definition encode (f : Fields) : Result Bytes :=
  i <- writeUInt8 (instruction f) ;;
  p <- ns64_encode (price f) ;;
  c <- nu64_encode (confidence f) ;;
  s <- writeUInt32LE (status f) ;;
  Ok (i ++ p ++ c ++ s).

(** What a reader of the layout finds in the bytes. *)
Record Decoded : Type := {
  d_instruction : Z;
  d_price : Z;
  d_confidence : Z;
  d_status : Z
}.

Definition decode (data : Bytes) : option Decoded :=
  if (List.length data =? span)%nat then
    Some {| d_instruction := le_value (firstn 1 data);
            d_price := ns64_decode (skipn 1 data);
            d_confidence := nu64_decode (skipn 9 data);
            d_status := readUInt32LE (skipn 17 data) |}
  else None.

(** The instruction data [composeUpdatePriceTransaction] builds; the rest
    of the transaction (keys, program id) carries no payload field. *)
Definition composeUpdatePriceTransaction (price confidence : Q) (status : Z)
  : Result Bytes :=
  encode {| instruction := 0;
            price := fmul price 100000000;
            confidence := fmul confidence 10000;
            status := inject_Z status |}.

End Payload.

(** ** The oracle scripts: configuration, state, update policy, main loop *)

Module Oracle.

Definition OUTER_INTERVAL : Z := 10000.

(** The two scripts share everything but the observation they fetch and
    the price they send. *)
Inductive Script : Type :=
| JupiterScript
| MsolScript.

(** The fields of [Config] the policy reads; [main] copies them into the
    instance at startup. *)
Record Config : Type := {
  fetchInterval : Z;
  updateThreshold : Q;
  updateInterval : Z;
  confidence : Q;
  inactiveDuration : Z;
  minThreshold : Q;
  maxThreshold : Q;
  allowNegativeSpread : bool
}.

(** What the process does to the outside, newest first: log lines, the
    deliveries it launches, its sleeps. *)
Inductive Effect : Type :=
| DebugUpdating (price : Q) (status now : Z)
| Submitted (data : Payload.Bytes) (recentBlockhash : string)
| DebugExecuted (txid : Delivery.Txid)
| DebugQuote (bid ask mark : Q)
| WarnDisabling (inactiveDuration : Z)
| ErrorLogged (message : string)
| Slept (ms : Z).

(** The mutable fields of [Main] ([lastUpdate = 0], [lastPrice = 0],
    [lastStatus = 0] at construction) and the effects so far. *)
Record Main : Type := {
  lastUpdate : Z;
  lastPrice : Q;
  lastStatus : Z;
  effects : list Effect
}.

Definition initialMain : Main :=
  {| lastUpdate := 0; lastPrice := 0%Q; lastStatus := 0; effects := [] |}.

Definition emit (e : Effect) (m : Main) : Main :=
  {| lastUpdate := lastUpdate m; lastPrice := lastPrice m;
     lastStatus := lastStatus m; effects := e :: effects m |}.

(** The deliveries launched so far. *)
Definition submissions (m : Main) : list Payload.Bytes :=
  flat_map (fun e => match e with Submitted d _ => [d] | _ => [] end)
           (effects m).

(** A method of [Main]: it returns or throws, and leaves a state. *)
Definition Exec : Type := Main -> Result unit * Main.

Definition andThen (a b : Exec) : Exec :=
  fun m =>
    match a m with
    | (Ok _, m1) => b m1
    | (Throw e, m1) => (Throw e, m1)
    end.

Definition skip : Exec := fun m => (Ok tt, m).

(** [Math.abs((price - this.lastPrice) / this.lastPrice * 100)] *)
Definition deviation (price last : Q) : Q :=
  Qabs (fmul (fdiv (fsub price last) last) 100).

(** [needUpdate(price, now)] *)
Definition needUpdate (cfg : Config) (m : Main) (price : Q) (now : Z)
  : Result bool :=
  if lastUpdate m + updateInterval cfg <? now then Ok true
  else if truthyQ (lastPrice m)
       then Ok (Qltb (updateThreshold cfg) (deviation price (lastPrice m)))
       else Throw AssertionError.

(** [connection.getLatestBlockhash()] *)
Inductive BlockhashOutcome : Type :=
| LatestBlockhash (blockhash : string)
| BlockhashFails.

(** The price put in the transaction: the mSOL script sends
    [price ? 1.0 / price : 0], the Jupiter script the price itself. *)
Definition oraclePrice (s : Script) (price : Q) : Q :=
  match s with
  | JupiterScript => price
  | MsolScript => if truthyQ price then fdiv 1 price else 0%Q
  end.

(** [updatePrice(price, status, now)] *)
Definition updatePrice (s : Script) (cfg : Config) (bh : BlockhashOutcome)
  (price : Q) (status now : Z) : Exec :=
  fun m =>
    let m1 := emit (DebugUpdating price status now) m in
    match Payload.composeUpdatePriceTransaction
            (oraclePrice s price) (confidence cfg) status with
    | Throw e => (Throw e, m1)
    | Ok data =>
        match bh with
        | BlockhashFails => (Throw (NetworkError "getLatestBlockhash"), m1)
        | LatestBlockhash h =>
            (Ok tt,
             {| lastUpdate := now; lastPrice := price; lastStatus := status;
                effects := Submitted data h :: effects m1 |})
        end
    end.

(** The Node process after a promise has settled: it goes on with the
    state of [Main], or it has ended on a rejection nothing handles. *)
Inductive Process : Type :=
| Running (m : Main)
| Ended (unhandled : Exn).

(** The continuation [.then(({txid, transactionResponse}) => debug(..))
    .catch()] of a launched delivery, run when the delivery settles.  A
    delivery that fulfils is logged.  [.catch()] is given no handler, so a
    rejection passes through it unhandled, and Node ends the process on an
    unhandled rejection (its default since version 15, which introduced
    the [Promise.any] the delivery needs). *)
Definition onDeliverySettled (o : Delivery.Settled) (m : Main) : Process :=
  match o with
  | Delivery.Fulfilled txid _ => Running (emit (DebugExecuted txid) m)
  | Delivery.Rejected e => Ended e
  end.

(** [getMarkPrice(bid, ask)] *)
Definition getMarkPrice (bid ask : Q) : Q := ((bid + ask) / 2)%Q.

(** The two [getBestRoute] calls of a tick of the Jupiter script. *)
Inductive Quote : Type :=
| QuoteFails
| NoRoute
| Quoted (bid ask : Q).

(** [marinade.getMarinadeState()] of a tick of the mSOL script. *)
Inductive MarinadeState : Type :=
| MarinadeFails
| MSolPrice (mSolPrice : Q).

(** The status the Jupiter script publishes with a price. *)
Definition statusOf (cfg : Config) (bid ask : Q) : Z :=
  let price := getMarkPrice bid ask in
  let negativeSpread := Qltb ask bid in
  let outOfThreshold :=
    Qltb price (minThreshold cfg) || Qltb (maxThreshold cfg) price in
  if (negb (allowNegativeSpread cfg) && negativeSpread) || outOfThreshold
  then 0 else 1.

(** First half of a tick, Jupiter script. *)
Definition publishJupiter (cfg : Config) (q : Quote) (bh : BlockhashOutcome)
  (now : Z) : Exec :=
  fun m =>
    match q with
    | QuoteFails => (Throw (NetworkError "computeRoutes"), m)
    | NoRoute => (Ok tt, m)
    | Quoted bid ask =>
        let price := getMarkPrice bid ask in
        let m1 := emit (DebugQuote bid ask price) m in
        match needUpdate cfg m1 price now with
        | Throw e => (Throw e, m1)
        | Ok false => (Ok tt, m1)
        | Ok true =>
            updatePrice JupiterScript cfg bh price (statusOf cfg bid ask) now m1
        end
    end.

(** First half of a tick, mSOL script. *)
Definition publishMsol (cfg : Config) (s : MarinadeState)
  (bh : BlockhashOutcome) (now : Z) : Exec :=
  fun m =>
    match s with
    | MarinadeFails => (Throw (NetworkError "getMarinadeState"), m)
    | MSolPrice mSolPrice =>
        if truthyQ mSolPrice then
          match needUpdate cfg m mSolPrice now with
          | Throw e => (Throw e, m)
          | Ok false => (Ok tt, m)
          | Ok true => updatePrice MsolScript cfg bh mSolPrice 1 now m
          end
        else (Ok tt, m)
    end.

(** The condition of the inactivity rule. *)
Definition inactive (cfg : Config) (m : Main) (now : Z) : bool :=
  truthyZ (inactiveDuration cfg)
  && (lastUpdate m + inactiveDuration cfg <? now)
  && truthyZ (lastStatus m).

(** Second half of a tick, both scripts. *)
Definition disableIfInactive (s : Script) (cfg : Config)
  (bh : BlockhashOutcome) (now : Z) : Exec :=
  fun m =>
    if inactive cfg m now then
      updatePrice s cfg bh (lastPrice m) 0 now
        (emit (WarnDisabling (inactiveDuration cfg)) m)
    else (Ok tt, m).

(** What one pass of the inner loop meets. *)
Record TickInput : Type := {
  now : Z;
  quote : Quote;
  marinade : MarinadeState;
  blockhashForUpdate : BlockhashOutcome;
  blockhashForDisable : BlockhashOutcome
}.

Definition publish (s : Script) (cfg : Config) (t : TickInput) : Exec :=
  match s with
  | JupiterScript =>
      publishJupiter cfg (quote t) (blockhashForUpdate t) (now t)
  | MsolScript =>
      publishMsol cfg (marinade t) (blockhashForUpdate t) (now t)
  end.

(** The body of the inner [while] loop, up to its sleep. *)
Definition tick (s : Script) (cfg : Config) (t : TickInput) : Exec :=
  andThen (publish s cfg t)
          (disableIfInactive s cfg (blockhashForDisable t) (now t)).

(** The two nested loops, run until the interrupt: a tick that returns is
    followed by [sleep(fetchInterval)], a tick that throws by the error
    line, [sleep(OUTER_INTERVAL)] and a new connection. *)
Fixpoint run (s : Script) (cfg : Config) (ticks : list TickInput) (m : Main)
  : Main :=
  match ticks with
  | [] => m
  | t :: ticks' =>
      match tick s cfg t m with
      | (Ok _, m1) => run s cfg ticks' (emit (Slept (fetchInterval cfg)) m1)
      | (Throw _, m1) =>
          run s cfg ticks'
            (emit (Slept OUTER_INTERVAL)
               (emit (ErrorLogged "error in main persistent loop") m1))
      end
  end.

(** The startup check on [inactiveDuration]. *)
Definition refusesToStart (cfg : Config) : bool :=
  truthyZ (inactiveDuration cfg)
  && (inactiveDuration cfg <? updateInterval cfg).

(** [main(config)]: [tokensListed] tells whether the token list holds both
    mints (Jupiter script only). *)
Definition main (s : Script) (config : option Config) (tokensListed : bool)
  (ticks : list TickInput) (m : Main) : Main :=
  match config with
  | None => emit (ErrorLogged "no configuration file specified") m
  | Some cfg =>
      if refusesToStart cfg then
        emit (ErrorLogged
                "inappropriate config: 'inactiveDuration' must be longer than 'updateInterval'")
             m
      else
        match s with
        | JupiterScript =>
            if tokensListed then run s cfg ticks m
            else emit (ErrorLogged "token(s) not supported by Jupiter") m
        | MsolScript => run s cfg ticks m
        end
  end.

(** The deviation in the words of the specification,
    [abs(price - lastPrice) / lastPrice * 100]: the absolute value of the
    difference only, where [deviation] takes that of the whole quotient. *)
Definition claimedDeviation (price last : Q) : Q :=
  fmul (fdiv (Qabs (fsub price last)) last) 100.


(** The condition of the inactivity rule, read as a proposition. *)
Definition stale (cfg : Config) (m : Main) (now : Z) : Prop :=
  inactiveDuration cfg <> 0
  /\ lastUpdate m + inactiveDuration cfg < now
  /\ lastStatus m <> 0.


End Oracle.

(** ** Scenarios: the inputs of the examples *)

Module Scenarios.

Import Delivery Oracle.

(** The configuration of the scenarios of the specification: a threshold
    of 1 %, a forced update every minute. *)
Definition scenarioConfig : Config :=
  {| fetchInterval := 1000; updateThreshold := 1; updateInterval := 60000;
     confidence := 0; inactiveDuration := 0;
     minThreshold := 0; maxThreshold := 1000000;
     allowNegativeSpread := false |}.

Definition publishedAt (t : Z) (p : Q) (status : Z) : Main :=
  {| lastUpdate := t; lastPrice := p; lastStatus := status; effects := [] |}.

(** A channel that answers every query with "not found" after 100 ms. *)
Definition slowNotFound : Channel :=
  {| firstSend := Sent 0 "tx"%string;
     resend := fun _ => Sent 0 "tx"%string;
     query := fun _ => NotFound 100 |}.

(** A channel that takes the first send, answers no query, and fails the
    first send of the loop after 50 ms. *)
Definition failingResend : Channel :=
  {| firstSend := Sent 0 "tx"%string;
     resend := fun _ => SendFails 50;
     query := fun _ => Unanswered |}.

(** A channel that confirms the third query after 200 ms. *)
Definition confirmsThird : Channel :=
  {| firstSend := Sent 0 "tx"%string;
     resend := fun _ => Sent 0 "tx"%string;
     query := fun i => if (i =? 2)%nat then Found 200 (Confirmed 7)
                       else Unanswered |}.

(** The rule at work without an observation: the price 100 was published
    as Valid at 1000000, no route is found at 1120001, two minutes of
    silence are allowed. *)
Definition twoMinutesConfig : Config :=
  {| fetchInterval := 1000; updateThreshold := 1; updateInterval := 60000;
     confidence := 0; inactiveDuration := 120000;
     minThreshold := 0; maxThreshold := 1000000;
     allowNegativeSpread := false |}.

Definition silentTick : TickInput :=
  {| now := 1120001; quote := NoRoute; marinade := MarinadeFails;
     blockhashForUpdate := BlockhashFails;
     blockhashForDisable := LatestBlockhash "h" |}.



(** Configurations that differ in the two durations of the startup check,
    and a first tick with a quote of 1. *)
Definition configWithDurations (inactive interval : Z) : Config :=
  {| fetchInterval := 1000; updateThreshold := 1; updateInterval := interval;
     confidence := 0; inactiveDuration := inactive;
     minThreshold := 0; maxThreshold := 1000000;
     allowNegativeSpread := false |}.

Definition firstTick : TickInput :=
  {| now := 1700000000000; quote := Quoted 1 1; marinade := MSolPrice 1;
     blockhashForUpdate := LatestBlockhash "h";
     blockhashForDisable := LatestBlockhash "h" |}.

(** A first tick whose two routes quote a price of 0. *)
Definition zeroQuoteTick : TickInput :=
  {| now := 1700000000000; quote := Quoted 0 0; marinade := MSolPrice 0;
     blockhashForUpdate := LatestBlockhash "h";
     blockhashForDisable := LatestBlockhash "h" |}.

End Scenarios.

(** ** Route selection: [getBestRoute] *)

Module Routing.

(** What [getBestRoute] reads of a market: whether its [amm] is an
    instance of [SplitTradeAmm]. *)
Record MarketInfo : Type := {
  isSplitTradeAmm : bool
}.

Record RouteInfo : Type := {
  marketInfos : list MarketInfo;
  inAmount : Q;
  outAmount : Q
}.

(** The loop over [route.routesInfos], once [computeRoutes] has answered:
    the first route with exactly one market, that market not a split
    trade; [None] for the [undefined] of a loop that ends. *)
Fixpoint getBestRoute (routesInfos : list RouteInfo) : option RouteInfo :=
  match routesInfos with
  | [] => None
  | ri :: rest =>
      if (List.length (marketInfos ri) =? 1)%nat then
        match marketInfos ri with
        | mi :: _ =>
            if negb (isSplitTradeAmm mi) then Some ri else getBestRoute rest
        | [] => getBestRoute rest
        end
      else getBestRoute rest
  end.

(** A route the loop accepts: one market, not a split trade. *)
Definition direct (ri : RouteInfo) : Prop :=
  exists mi, marketInfos ri = [mi] /\ isSplitTradeAmm mi = false.

End Routing.

(** ** The sample script: five one-second loops, left early on interrupt *)

Module IndexScript.

Inductive Line : Type :=
| ConfigHeader
| ConfigSolana
| ConfigFtx
| LoopLine (k : nat)
| DoneLine.

(** [this.done] read at time [clock], the interrupt signal having come at
    [interruptAt] (never, for [None]). *)
Definition done (interruptAt : option Z) (clock : Z) : bool :=
  match interruptAt with
  | Some t => t <=? clock
  | None => false
  end.

(** [for (let i = ..; i < 5; ++i) { await sleep(1000); info(..);
    if (this.done) break; }] with [remaining] passes left, entered at
    [clock] with the counter at [i]: the lines logged and the time the
    loop is left. *)
Fixpoint loopFrom (remaining i : nat) (interruptAt : option Z) (clock : Z)
  : list Line * Z :=
  match remaining with
  | O => ([], clock)
  | S remaining' =>
      let clock' := clock + timerDelay 1000 in
      if done interruptAt clock' then ([LoopLine (i + 1)], clock')
      else
        let (ls, c) := loopFrom remaining' (i + 1) interruptAt clock' in
        (LoopLine (i + 1) :: ls, c)
  end.

(** [main(config)], started at [t0]; [config] is [None] when no
    configuration file was read. *)
Definition main {C : Type} (config : option C) (interruptAt : option Z)
  (t0 : Z) : list Line * Z :=
  let (ls, c) := loopFrom 5 0 interruptAt t0 in
  ((match config with
    | Some _ => [ConfigHeader; ConfigSolana; ConfigFtx]
    | None => []
    end) ++ ls ++ [DoneLine], c).

Definition isLoopLine (l : Line) : bool :=
  match l with
  | LoopLine _ => true
  | _ => false
  end.

End IndexScript.

(** ** Conditions on the state of the publisher *)

Module Invariants.

Import Oracle.

(** The three fields are those of [m]. *)
Definition sameFields (m m' : Main) : Prop :=
  lastUpdate m' = lastUpdate m
  /\ lastPrice m' = lastPrice m
  /\ lastStatus m' = lastStatus m.

(** [lastStatus] is one of the two statuses the scripts send. *)
Definition statusKnown (m : Main) : Prop :=
  lastStatus m = 0 \/ lastStatus m = 1.

(** The payload a reader finds for a non-negative price, a confidence and
    a status: the scaled values are those the code computes, in doubles. *)
Definition readBack (price confidence : Q) (status : Z) : Payload.Decoded :=
  {| Payload.d_instruction := 0;
     Payload.d_price := Qfloor (fmul price 100000000);
     Payload.d_confidence := Qfloor (fmul confidence 10000);
     Payload.d_status := status |}.

End Invariants.

(** ** Further inputs of the examples *)

Module MoreScenarios.

Import Delivery Oracle Scenarios.

(** What the default call returns on three channels: one that only
    answers "not found", one that confirms the third query, one that
    fails the first send of the loop. *)
Definition timedOutRun : Run :=
  {| settled := Fulfilled "tx"%string None;
     startedAt := 0; settledAt := 121000; broadcasts := 22 |}.

Definition confirmedRun : Run :=
  {| settled := Fulfilled "tx"%string (Some (Confirmed 7));
     startedAt := 0; settledAt := 5200; broadcasts := 1 |}.

Definition abortedRun : Run :=
  {| settled := Rejected (NetworkError "sendRawTransaction");
     startedAt := 0; settledAt := 7550; broadcasts := 2 |}.

(** A first tick and a second one a second later, with the same quote. *)
Definition twoTicks : list TickInput :=
  [firstTick;
   {| now := 1700000001000; quote := Quoted 1 1; marinade := MSolPrice 1;
      blockhashForUpdate := LatestBlockhash "h";
      blockhashForDisable := LatestBlockhash "h" |}].

(** The state the silent tick leaves: the last price, disabled. *)
Definition disabledMain : Main :=
  {| lastUpdate := 1120001; lastPrice := 100; lastStatus := 0;
     effects :=
       [Submitted [0; 0; 228; 11; 84; 2; 0; 0; 0;
                   0; 0; 0; 0; 0; 0; 0; 0; 0; 0; 0; 0] "h";
        DebugUpdating 100 0 1120001; WarnDisabling 120000] |}.


(** A tick whose quote is to be published but finds no blockhash. *)
Definition noBlockhashTick : TickInput :=
  {| now := 1120001; quote := Quoted 101 103; marinade := MSolPrice 102;
     blockhashForUpdate := BlockhashFails;
     blockhashForDisable := BlockhashFails |}.

(** The state after the Jupiter script has published 102 at 1001000. *)
Definition jupiterPublishedMain : Main :=
  {| lastUpdate := 1001000; lastPrice := 102; lastStatus := 1;
     effects := [Submitted
                   [0; 0; 166; 247; 95; 2; 0; 0; 0;
                    0; 0; 0; 0; 0; 0; 0; 0; 1; 0; 0; 0] "h";
                 DebugUpdating 102 1 1001000] |}.

(** The state after the mSOL script has published 102 at 1001000: the
    payload holds 980392, the integer part of 1e8 / 102. *)
Definition msolPublishedMain : Main :=
  {| lastUpdate := 1001000; lastPrice := 102; lastStatus := 1;
     effects := [Submitted
                   [0; 168; 245; 14; 0; 0; 0; 0; 0;
                    0; 0; 0; 0; 0; 0; 0; 0; 1; 0; 0; 0] "h";
                 DebugUpdating 102 1 1001000] |}.

(** The state after a publish of the quote 101 / 103 found no blockhash. *)
Definition failedPublishMain : Main :=
  {| lastUpdate := 1000000; lastPrice := 100; lastStatus := 1;
     effects := [DebugUpdating (204 # 2) 1 1120001;
                 DebugQuote 101 103 (204 # 2)] |}.

End MoreScenarios.

(** * Properties *)

(** ** Numbers and conditions *)

Module JsFacts.

Lemma Qltb_lt (x y : Q) : Qltb x y = true <-> (x < y)%Q.
Proof.
  unfold Qltb. rewrite negb_true_iff. split; intro H.
  - apply Qnot_le_lt. intro L. apply Qle_bool_iff in L. congruence.
  - destruct (Qle_bool y x) eqn:E; [|reflexivity].
    apply Qle_bool_iff in E. exfalso. exact (Qlt_not_le _ _ H E).
Qed.

Lemma Qltb_ge (x y : Q) : Qltb x y = false <-> (y <= x)%Q.
Proof.
  unfold Qltb. rewrite negb_false_iff. apply Qle_bool_iff.
Qed.

Lemma truthyQ_nonzero (q : Q) : truthyQ q = true <-> ~ (q == 0)%Q.
Proof.
  unfold truthyQ. rewrite negb_true_iff. split; intro H.
  - intro E. apply Qeq_bool_iff in E. congruence.
  - destruct (Qeq_bool q 0) eqn:E; [|reflexivity].
    apply Qeq_bool_iff in E. contradiction.
Qed.

Lemma truthyQ_zero (q : Q) : truthyQ q = false <-> (q == 0)%Q.
Proof.
  unfold truthyQ. rewrite negb_false_iff. apply Qeq_bool_iff.
Qed.

Lemma truthyZ_nonzero (z : Z) : truthyZ z = true <-> z <> 0.
Proof.
  unfold truthyZ. rewrite negb_true_iff. apply Z.eqb_neq.
Qed.

Lemma timerDelay_positive (ms : Z) : 1 <= timerDelay ms.
Proof.
  unfold timerDelay.
  destruct (ms <? 1) eqn:E; simpl; [lia|].
  destruct (2147483647 <? ms); lia.
Qed.

Lemma timerDelay_in_range (ms : Z) :
  1 <= ms <= 2147483647 -> timerDelay ms = ms.
Proof.
  intro H. unfold timerDelay.
  destruct (Z.ltb_spec ms 1); [lia|].
  destruct (Z.ltb_spec 2147483647 ms); [lia|]. reflexivity.
Qed.

End JsFacts.

(** ** Rounding to binary64 *)

Module RoundingFacts.

Lemma pow2_pos (x : Z) : 0 <= x -> 0 < 2 ^ x.
Proof. intro H. apply Z.pow_pos_nonneg; lia. Qed.

Lemma exponent64_bounds (a : Z) (b : positive) :
  0 < a ->
  2 ^ 52 * (Z.pos b * 2 ^ Z.max 0 (exponent64 a b))
  <= a * 2 ^ Z.max 0 (- exponent64 a b)
  < 2 ^ 53 * (Z.pos b * 2 ^ Z.max 0 (exponent64 a b)).
Proof.
  intro Ha. unfold exponent64.
  set (lb := Z.log2 (Z.pos b)).
  set (s := lb + 54).
  set (T := a * 2 ^ s / Z.pos b).
  set (lT := Z.log2 T).
  assert (Hlb0 : 0 <= lb) by apply Z.log2_nonneg.
  assert (Hb : 2 ^ lb <= Z.pos b < 2 ^ (lb + 1)).
  { unfold lb. apply Z.log2_spec. lia. }
  assert (Hs : 2 ^ s = 2 ^ 53 * 2 ^ (lb + 1)).
  { unfold s. rewrite <- Z.pow_add_r by lia. f_equal. lia. }
  assert (HX : 0 < 2 ^ s) by (apply pow2_pos; unfold s; lia).
  assert (HT53 : 2 ^ 53 <= T).
  { unfold T. apply Z.div_le_lower_bound; [lia|]. nia. }
  assert (HT : 2 ^ lT <= T < 2 ^ (lT + 1)).
  { unfold lT. apply Z.log2_spec. lia. }
  assert (HlT0 : 0 <= lT) by apply Z.log2_nonneg.
  assert (Hd1 : Z.pos b * T <= a * 2 ^ s).
  { unfold T. apply Z.mul_div_le. lia. }
  assert (Hd2 : a * 2 ^ s < Z.pos b * (T + 1)).
  { unfold T. apply Z.mul_succ_div_gt. lia. }
  set (e := lT - s - 52).
  destruct (Z.le_gt_cases 0 e) as [He|He].
  - rewrite (Z.max_r 0 e) by lia. rewrite (Z.max_l 0 (- e)) by lia.
    change (2 ^ 0) with 1.
    assert (HE : 0 < 2 ^ e) by (apply pow2_pos; lia).
    assert (HlTe : 2 ^ lT = 2 ^ e * 2 ^ s * 2 ^ 52).
    { rewrite <- !Z.pow_add_r by (unfold s; lia). f_equal. unfold e. lia. }
    assert (HlTe1 : 2 ^ (lT + 1) = 2 ^ e * 2 ^ s * 2 ^ 53).
    { rewrite <- !Z.pow_add_r by (unfold s; lia). f_equal. unfold e. lia. }
    split.
    + apply (Z.mul_le_mono_pos_r _ _ (2 ^ s) HX). nia.
    + apply (Z.mul_lt_mono_pos_r (2 ^ s) _ _ HX). nia.
  - rewrite (Z.max_l 0 e) by lia. rewrite (Z.max_r 0 (- e)) by lia.
    change (2 ^ 0) with 1.
    assert (HE : 0 < 2 ^ (- e)) by (apply pow2_pos; lia).
    assert (HlTe : 2 ^ lT * 2 ^ (- e) = 2 ^ s * 2 ^ 52).
    { rewrite <- !Z.pow_add_r by (unfold s; lia). f_equal. unfold e. lia. }
    assert (HlTe1 : 2 ^ (lT + 1) * 2 ^ (- e) = 2 ^ s * 2 ^ 53).
    { rewrite <- !Z.pow_add_r by (unfold s; lia). f_equal. unfold e. lia. }
    split.
    + apply (Z.mul_le_mono_pos_r _ _ (2 ^ s) HX). nia.
    + apply (Z.mul_lt_mono_pos_r (2 ^ s) _ _ HX). nia.
Qed.

Lemma roundHalfEven_bounds (n d : Z) :
  0 <= n -> 0 < d ->
  n / d <= roundHalfEven n d <= n / d + 1.
Proof.
  intros Hn Hd. unfold roundHalfEven.
  destruct (2 * (n mod d) ?= d); [destruct (Z.even (n / d))| |]; lia.
Qed.

Lemma roundHalfEven_exact (m d : Z) :
  0 < d -> roundHalfEven (m * d) d = m.
Proof.
  intro Hd. unfold roundHalfEven.
  rewrite Z.mod_mul, Z.div_mul by lia.
  destruct (Z.compare_spec (2 * 0) d); try lia.
Qed.

Lemma round64_zero (q : Q) : (q == 0)%Q -> round64 q = 0%Q.
Proof.
  intro H. unfold round64.
  assert (E : Qnum q = 0).
  { unfold Qeq in H. simpl in H. lia. }
  rewrite E. reflexivity.
Qed.

Lemma round64_unfold (q : Q) :
  Qnum q <> 0 ->
  (round64 q
   == inject_Z (Z.sgn (Qnum q)
                * roundHalfEven
                    (Z.abs (Qnum q)
                     * 2 ^ Z.max 0 (- exponent64 (Z.abs (Qnum q)) (Qden q)))
                    (Z.pos (Qden q)
                     * 2 ^ Z.max 0 (exponent64 (Z.abs (Qnum q)) (Qden q)))
                * 2 ^ Z.max 0 (exponent64 (Z.abs (Qnum q)) (Qden q)))
      / inject_Z (2 ^ Z.max 0 (- exponent64 (Z.abs (Qnum q)) (Qden q))))%Q.
Proof.
  intro H. unfold round64.
  destruct (Z.eqb_spec (Z.abs (Qnum q)) 0) as [E|E]; [lia|].
  cbv zeta. apply Qred_correct.
Qed.

Lemma inject_pow2_nonzero (x : Z) : 0 <= x -> ~ (inject_Z (2 ^ x) == 0)%Q.
Proof.
  intros H E. unfold Qeq in E. simpl in E.
  pose proof (pow2_pos x H). lia.
Qed.

(** The value of [round64] is a double. *)
Lemma round64_representable (q : Q) : representable64 (round64 q).
Proof.
  destruct (Z.eq_dec (Qnum q) 0) as [E|E].
  - rewrite round64_zero by (unfold Qeq; simpl; lia).
    exists 0, 0, 0.
    split; [simpl; lia|split; [lia|split; [lia|reflexivity]]].
  - set (a := Z.abs (Qnum q)). set (e := exponent64 a (Qden q)).
    set (n := roundHalfEven (a * 2 ^ Z.max 0 (- e))
                (Z.pos (Qden q) * 2 ^ Z.max 0 e)).
    exists (Z.sgn (Qnum q) * n), (Z.max 0 e), (Z.max 0 (- e)).
    assert (Ha : 0 < a) by (unfold a; lia).
    pose proof (exponent64_bounds a (Qden q) Ha) as [Hlo Hhi]. fold e in Hlo, Hhi.
    assert (HD : 0 < Z.pos (Qden q) * 2 ^ Z.max 0 e).
    { apply Z.mul_pos_pos; [lia|apply pow2_pos; lia]. }
    assert (HN : 0 <= a * 2 ^ Z.max 0 (- e)).
    { apply Z.mul_nonneg_nonneg; [lia|]. apply Z.lt_le_incl, pow2_pos. lia. }
    pose proof (roundHalfEven_bounds _ _ HN HD) as [Hn1 Hn2]. fold n in Hn1, Hn2.
    assert (Hq : a * 2 ^ Z.max 0 (- e) / (Z.pos (Qden q) * 2 ^ Z.max 0 e)
                 < 2 ^ 53).
    { apply Z.div_lt_upper_bound; [exact HD|]. lia. }
    assert (Hq0 : 0 <= a * 2 ^ Z.max 0 (- e) / (Z.pos (Qden q) * 2 ^ Z.max 0 e)).
    { apply Z.div_pos; lia. }
    split; [|split; [lia|split; [lia|]]].
    + rewrite Z.abs_mul. destruct (Qnum q); simpl Z.sgn; simpl Z.abs; lia.
    + rewrite (round64_unfold q E). fold a. fold e. fold n.
      field. apply inject_pow2_nonzero. lia.
Qed.

(** A double is its own rounding. *)
Lemma round64_exact (q : Q) : representable64 q -> (round64 q == q)%Q.
Proof.
  intros (m & u & v & Hm & Hu & Hv & Hq).
  destruct (Z.eq_dec (Qnum q) 0) as [E|E].
  - rewrite round64_zero; unfold Qeq; simpl; lia.
  - rewrite (round64_unfold q E).
    set (a := Z.abs (Qnum q)). set (e := exponent64 a (Qden q)).
    set (se := Z.max 0 e). set (te := Z.max 0 (- e)).
    assert (Ha : 0 < a) by (unfold a; lia).
    pose proof (exponent64_bounds a (Qden q) Ha) as [Hlo _].
    fold e se te in Hlo.
    assert (Hse : 0 <= se) by (unfold se; lia).
    assert (Hte : 0 <= te) by (unfold te; lia).
    pose proof (pow2_pos se Hse) as Pse. pose proof (pow2_pos te Hte) as Pte.
    pose proof (pow2_pos u Hu) as Pu. pose proof (pow2_pos v Hv) as Pv.
    (* the hypothesis, in integers *)
    assert (Hz : Qnum q * 2 ^ v = m * 2 ^ u * Z.pos (Qden q)).
    { unfold Qeq in Hq. simpl in Hq.
      rewrite Pos.mul_1_r in Hq. lia. }
    assert (Hza : a * 2 ^ v = Z.abs m * 2 ^ u * Z.pos (Qden q)).
    { unfold a. apply (f_equal Z.abs) in Hz.
      rewrite !Z.abs_mul in Hz.
      rewrite (Z.abs_eq (2 ^ v)), (Z.abs_eq (2 ^ u)) in Hz by lia.
      simpl Z.abs in Hz. exact Hz. }
    (* the scaled value is an integer *)
    assert (HM : exists M, a * 2 ^ te = M * (Z.pos (Qden q) * 2 ^ se)).
    { assert (Hexp : 52 + se + v <= 53 + u + te).
      { apply (Z.pow_le_mono_r_iff 2); [lia|lia|].
        rewrite !Z.pow_add_r by lia.
        assert (H1 : 2 ^ 52 * (Z.pos (Qden q) * 2 ^ se) * 2 ^ v
                     <= a * 2 ^ te * 2 ^ v) by nia.
        assert (H2 : a * 2 ^ te * 2 ^ v
                     = Z.abs m * 2 ^ u * 2 ^ te * Z.pos (Qden q)) by nia.
        assert (H3 : 2 ^ 52 * 2 ^ se * 2 ^ v * Z.pos (Qden q)
                     <= Z.abs m * 2 ^ u * 2 ^ te * Z.pos (Qden q)) by lia.
        apply Z.mul_le_mono_pos_r in H3; [|lia].
        assert (H4 : Z.abs m * (2 ^ u * 2 ^ te) <= 2 ^ 53 * (2 ^ u * 2 ^ te)).
        { apply Z.mul_le_mono_nonneg_r; nia. }
        nia. }
      destruct (Z.le_gt_cases (se + v) (u + te)) as [Hc|Hc].
      - exists (Z.abs m * 2 ^ (u + te - (se + v))).
        apply (Z.mul_reg_r _ _ (2 ^ v)); [lia|].
        assert (Hp : 2 ^ (u + te - (se + v)) * (2 ^ se * 2 ^ v)
                     = 2 ^ u * 2 ^ te).
        { rewrite <- !Z.pow_add_r by lia. f_equal. lia. }
        nia.
      - assert (Heq : se + v = u + te + 1) by lia.
        assert (Hp : 2 ^ se * 2 ^ v = 2 * (2 ^ u * 2 ^ te)).
        { rewrite <- !Z.pow_add_r by lia. rewrite Heq.
          rewrite Z.pow_add_r by lia. change (2 ^ 1) with 2. lia. }
        assert (Hm53 : Z.abs m = 2 ^ 53).
        { assert (H1 : 2 ^ 52 * (Z.pos (Qden q) * 2 ^ se) * 2 ^ v
                       <= a * 2 ^ te * 2 ^ v) by nia.
          assert (H2 : 2 ^ 53 * (2 ^ u * 2 ^ te) * Z.pos (Qden q)
                       <= Z.abs m * (2 ^ u * 2 ^ te) * Z.pos (Qden q)) by nia.
          apply Z.mul_le_mono_pos_r in H2; [|lia].
          apply Z.mul_le_mono_pos_r in H2; [|nia]. lia. }
        exists (2 ^ 52).
        apply (Z.mul_reg_r _ _ (2 ^ v)); [lia|].
        rewrite Hm53 in Hza. nia. }
    destruct HM as [M HM].
    rewrite HM, roundHalfEven_exact
      by (apply Z.mul_pos_pos; [lia|exact Pse]).
    assert (Hsg : Z.sgn (Qnum q) * a = Qnum q).
    { unfold a. destruct (Qnum q); simpl; lia. }
    assert (Hfin : (q * inject_Z (2 ^ te)
                    == inject_Z (Z.sgn (Qnum q) * M * 2 ^ se))%Q).
    { unfold Qeq. simpl. rewrite Pos.mul_1_r. nia. }
    rewrite <- Hfin. field. apply inject_pow2_nonzero. exact Hte.
Qed.

(** Being a double does not depend on how the rational is written. *)
Lemma representable64_eq (q q' : Q) :
  (q == q')%Q -> representable64 q -> representable64 q'.
Proof.
  intros E (m & u & v & Hm & Hu & Hv & H).
  exists m, u, v. rewrite <- E. auto.
Qed.

(** An integer of at most 53 bits times a power of two is a double. *)
Lemma representable64_integer (m u : Z) :
  Z.abs m <= 2 ^ 53 -> 0 <= u -> representable64 (inject_Z (m * 2 ^ u)).
Proof.
  intros Hm Hu. exists m, u, 0.
  split; [exact Hm|split; [exact Hu|split; [lia|]]].
  change (inject_Z (2 ^ 0)) with 1%Q. ring.
Qed.

(** A double divided by a power of two is a double. *)
Lemma representable64_shift (q : Q) (k : Z) :
  0 <= k -> representable64 q -> representable64 (q / inject_Z (2 ^ k)).
Proof.
  intros Hk (m & u & v & Hm & Hu & Hv & H).
  exists m, u, (v + k).
  split; [exact Hm|split; [exact Hu|split; [lia|]]].
  rewrite Z.pow_add_r, inject_Z_mult by lia.
  rewrite <- H. field. apply inject_pow2_nonzero. exact Hk.
Qed.

(** Rounding keeps the sign. *)
Lemma round64_nonneg (q : Q) : (0 <= q)%Q -> (0 <= round64 q)%Q.
Proof.
  intro H.
  destruct (Z.eq_dec (Qnum q) 0) as [E|E].
  - rewrite round64_zero by (unfold Qeq; simpl; lia). apply Qle_refl.
  - rewrite (round64_unfold q E).
    assert (Hn : 0 < Qnum q).
    { unfold Qle in H. simpl in H. lia. }
    set (a := Z.abs (Qnum q)). set (e := exponent64 a (Qden q)).
    assert (HD : 0 < Z.pos (Qden q) * 2 ^ Z.max 0 e).
    { apply Z.mul_pos_pos; [lia|apply pow2_pos; lia]. }
    assert (HN : 0 <= a * 2 ^ Z.max 0 (- e)).
    { apply Z.mul_nonneg_nonneg; [unfold a; lia|].
      apply Z.lt_le_incl, pow2_pos. lia. }
    pose proof (roundHalfEven_bounds _ _ HN HD) as [Hn1 _].
    assert (Hq0 : 0 <= a * 2 ^ Z.max 0 (- e)
                       / (Z.pos (Qden q) * 2 ^ Z.max 0 e)).
    { apply Z.div_pos; lia. }
    apply Qle_shift_div_l.
    + rewrite <- (Zlt_Qlt 0). apply pow2_pos. lia.
    + rewrite Qmult_0_l. rewrite <- (Zle_Qle 0).
      apply Z.mul_nonneg_nonneg;
        [apply Z.mul_nonneg_nonneg|apply Z.lt_le_incl, pow2_pos; lia].
      * destruct (Qnum q); simpl; lia.
      * lia.
Qed.

End RoundingFacts.

(** ** The update decision *)

Module PolicyFacts.

Import Oracle Scenarios JsFacts.

Example scenario_two_percent :
  needUpdate scenarioConfig (publishedAt 1000000 100 1) 102 1001000 = Ok true.
Proof. reflexivity. Qed.

Example scenario_below_threshold :
  needUpdate scenarioConfig (publishedAt 1000000 100 1) (1005 # 10) 1001000
  = Ok false.
Proof. reflexivity. Qed.

(** The deviation is computed in doubles: from 100 to 107 it is
    7.000000000000001, above a threshold of 7. *)
Example deviation_rounds :
  deviation 107 100 = 7881299347898369 # 1125899906842624
  /\ needUpdate
       {| fetchInterval := 1000; updateThreshold := 7;
          updateInterval := 60000; confidence := 0; inactiveDuration := 0;
          minThreshold := 0; maxThreshold := 1000000;
          allowNegativeSpread := false |}
       (publishedAt 1000000 100 1) 107 1001000
     = Ok true.
Proof. split; vm_compute; reflexivity. Qed.

(** C1, as stated, fails in two places.  Where [now] equals
    [lastUpdate + updateInterval] and the price has not moved, the
    interval has just been reached and [needUpdate] answers false.  And
    with a negative baseline, here -100 with a price of -102 one second
    after the update, [needUpdate] answers true on a deviation of 2 %,
    where [abs(price - lastPrice) / lastPrice * 100] is -2 and does not
    exceed the threshold of 1. *)
Lemma needUpdate_interval_reached_not_forced :
  (~ (lastPrice (publishedAt 1000000 100 1) == 0)%Q
   /\ 1060000 >= lastUpdate (publishedAt 1000000 100 1)
                 + updateInterval scenarioConfig
   /\ needUpdate scenarioConfig (publishedAt 1000000 100 1) 100 1060000
      = Ok false)
  /\ (~ (lastPrice (publishedAt 1000000 (-100) 1) == 0)%Q
      /\ ~ 1001000 >= lastUpdate (publishedAt 1000000 (-100) 1)
                      + updateInterval scenarioConfig
      /\ ~ (updateThreshold scenarioConfig
            < claimedDeviation (-102) (-100))%Q
      /\ needUpdate scenarioConfig (publishedAt 1000000 (-100) 1)
           (-102) 1001000
         = Ok true).
Proof.
  split; [split; [|split]|split; [|split; [|split]]].
  - intro H. discriminate H.
  - vm_compute. discriminate.
  - vm_compute. reflexivity.
  - intro H. discriminate H.
  - vm_compute. intro H. apply H. reflexivity.
  - vm_compute. intro H. discriminate H.
  - vm_compute. reflexivity.
Qed.

(** C1, amended: with a nonzero baseline [needUpdate] returns, and it
    returns true exactly when [now] is past [lastUpdate + updateInterval]
    or the deviation [abs((price - lastPrice) / lastPrice * 100)], as
    computed in doubles, exceeds [updateThreshold]; otherwise it returns
    false. *)
Theorem needUpdate_decides (cfg : Config) (m : Main) (price : Q) (now : Z) :
  ~ (lastPrice m == 0)%Q ->
  exists b,
    needUpdate cfg m price now = Ok b
    /\ (b = true <->
        lastUpdate m + updateInterval cfg < now
        \/ (updateThreshold cfg < deviation price (lastPrice m))%Q).
Proof.
  intro Hbase. unfold needUpdate.
  destruct (Z.ltb_spec (lastUpdate m + updateInterval cfg) now) as [Hlt|Hge].
  - exists true. split; [reflexivity|]. split; auto.
  - apply truthyQ_nonzero in Hbase. rewrite Hbase.
    eexists. split; [reflexivity|].
    rewrite Qltb_lt. split; [auto|]. intros [H|H]; [lia|exact H].
Qed.

Lemma needUpdate_decides_witness :
  exists b,
    needUpdate scenarioConfig (publishedAt 1000000 100 1) 102 1001000 = Ok b
    /\ (b = true <->
        lastUpdate (publishedAt 1000000 100 1)
          + updateInterval scenarioConfig < 1001000
        \/ (updateThreshold scenarioConfig
            < deviation 102 (lastPrice (publishedAt 1000000 100 1)))%Q).
Proof.
  apply (needUpdate_decides scenarioConfig (publishedAt 1000000 100 1)).
  intro H. discriminate H.
Defined.

(** C4, as stated, fails: once a price of 0 has been published (here by
    the first tick after startup), the baseline is zero, and at the next
    observation within [updateInterval] the assertion of [needUpdate]
    throws. *)
Lemma needUpdate_zero_baseline_asserts :
  let m1 := snd (tick JupiterScript scenarioConfig zeroQuoteTick initialMain) in
  (lastPrice m1 == 0)%Q
  /\ lastUpdate m1 = 1700000000000
  /\ needUpdate scenarioConfig m1 102 1700000030000 = Throw AssertionError.
Proof.
  cbv zeta. split; [|split]; vm_compute; reflexivity.
Qed.

(** C4, amended: with a zero baseline [needUpdate] returns true when
    [now] is past [lastUpdate + updateInterval], as on the first tick
    after startup whenever [now > updateInterval]; otherwise the
    assertion on the baseline throws. *)
Theorem needUpdate_zero_baseline (cfg : Config) (m : Main) (price : Q)
  (now : Z) :
  (lastPrice m == 0)%Q ->
  (lastUpdate m + updateInterval cfg < now ->
   needUpdate cfg m price now = Ok true)
  /\ (now <= lastUpdate m + updateInterval cfg ->
      needUpdate cfg m price now = Throw AssertionError)
  /\ (updateInterval cfg < now ->
      needUpdate cfg initialMain price now = Ok true).
Proof.
  intro Hzero. unfold needUpdate. repeat split; intro H.
  - destruct (Z.ltb_spec (lastUpdate m + updateInterval cfg) now); [reflexivity|lia].
  - destruct (Z.ltb_spec (lastUpdate m + updateInterval cfg) now); [lia|].
    apply truthyQ_zero in Hzero. rewrite Hzero. reflexivity.
  - simpl. destruct (Z.ltb_spec (updateInterval cfg) now); [reflexivity|lia].
Qed.

Lemma needUpdate_zero_baseline_witness :
  needUpdate scenarioConfig (publishedAt 1000000 0 0) 102 1030000
  = Throw AssertionError
  /\ needUpdate scenarioConfig (publishedAt 1000000 0 0) 102 1060001
     = Ok true
  /\ needUpdate scenarioConfig initialMain 102 1030000 = Ok true.
Proof.
  split; [|split].
  - apply (needUpdate_zero_baseline scenarioConfig (publishedAt 1000000 0 0)
             102 1030000); [reflexivity|simpl; lia].
  - apply (needUpdate_zero_baseline scenarioConfig (publishedAt 1000000 0 0)
             102 1060001); [reflexivity|simpl; lia].
  - apply (needUpdate_zero_baseline scenarioConfig (publishedAt 1000000 0 0)
             102 1030000); [reflexivity|simpl; lia].
Defined.

End PolicyFacts.

(** ** The delivery protocol *)

Module DeliveryFacts.

Import Delivery Scenarios JsFacts.

Lemma confirmation_wait_delay : timerDelay CONFIRMATION_WAIT = 1500.
Proof. reflexivity. Qed.

(** The race takes at most the fixed wait. *)
Lemma race_duration (q : QueryOutcome) :
  0 <= fst (race q) <= CONFIRMATION_WAIT.
Proof.
  unfold race. rewrite confirmation_wait_delay. unfold CONFIRMATION_WAIT.
  destruct q as [d r|d| |]; simpl; try lia;
    destruct (Z.ltb_spec (Z.of_N d) 1500); simpl; lia.
Qed.

(** A rejected or unanswered query, and a [null] answer, give no response. *)
Lemma race_without_confirmation (q : QueryOutcome) :
  (forall d r, q <> Found d r) -> snd (race q) = None.
Proof.
  intro H. destruct q as [d r|d| |]; simpl; try reflexivity.
  - exfalso. exact (H d r eq_refl).
  - destruct (Z.of_N d <? timerDelay CONFIRMATION_WAIT); reflexivity.
Qed.

(** The shape of [poll]: it returns a confirmation or goes on, later. *)
Lemma poll_cases (ch : Channel) (p : Params) (txid : Txid) (start : Z)
  (l : Loop) (d : Z) :
  (exists w r,
      race (query ch (polls l)) = (w, Some r)
      /\ poll ch p txid start l d
         = Return {| settled := Fulfilled txid (Some r);
                     startedAt := start;
                     settledAt := clock l + d + w;
                     broadcasts := retries l + 1 |})
  \/ (exists w,
         race (query ch (polls l)) = (w, None)
         /\ poll ch p txid start l d
            = Continue {| clock := clock l + d + w
                                   + timerDelay (pollInterval p);
                          lastSendTimestamp := lastSendTimestamp l;
                          retries := retries l;
                          polls := S (polls l) |}).
Proof.
  unfold poll. destruct (race (query ch (polls l))) as [w [r|]].
  - left. exists w, r. split; reflexivity.
  - right. exists w. split; reflexivity.
Qed.

Ltac split_iteration ch p l :=
  unfold iteration;
  destruct ((retries l <? sendRetries p)
            && (sendInterval p <? clock l - lastSendTimestamp l)) eqn:Hdue;
  [ destruct (resend ch (Z.to_nat (retries l))) as [ds ?|ds] eqn:Hresend | ].

(** An iteration that goes on has moved the clock forward and kept the
    count of resends within its bound. *)
Lemma iteration_continue (ch : Channel) (p : Params) (txid : Txid)
  (start : Z) (l l' : Loop) :
  iteration ch p txid start l = Continue l' ->
  clock l + 1 <= clock l'
  /\ retries l <= retries l'
  /\ (retries l <= Z.max 0 (sendRetries p) ->
      retries l' <= Z.max 0 (sendRetries p)).
Proof.
  split_iteration ch p l; intro H; try discriminate H.
  - destruct (poll_cases ch p txid start
                {| clock := clock l; lastSendTimestamp := clock l;
                   retries := retries l + 1; polls := polls l |}
                (Z.of_N ds)) as [(w & r & _ & E)|(w & Hr & E)];
      rewrite E in H; inversion H; subst; clear H E; simpl.
    pose proof (race_duration (query ch (polls l))) as Hw.
    simpl in Hr. rewrite Hr in Hw. simpl in Hw.
    pose proof (timerDelay_positive (pollInterval p)).
    apply andb_prop in Hdue. destruct Hdue as [Hlt _].
    apply Z.ltb_lt in Hlt. lia.
  - destruct (poll_cases ch p txid start l 0)
      as [(w & r & _ & E)|(w & Hr & E)];
      rewrite E in H; inversion H; subst; clear H E; simpl.
    pose proof (race_duration (query ch (polls l))) as Hw.
    rewrite Hr in Hw. simpl in Hw.
    pose proof (timerDelay_positive (pollInterval p)). lia.
Qed.

(** The loop ends: [Z.to_nat (timeout - elapsed)] iterations, and one
    more test, are enough. *)
Lemma loop_terminates (ch : Channel) (p : Params) (txid : Txid) (start : Z) :
  forall (fuel : nat) (l : Loop),
    (Z.to_nat (timeout p - (clock l - start)) < fuel)%nat ->
    exists r, loop fuel ch p txid start l = Some r.
Proof.
  induction fuel as [|fuel IH]; intros l Hfuel; [lia|].
  simpl. destruct (Z.ltb_spec (clock l - start) (timeout p)) as [Hin|Hout].
  - destruct (iteration ch p txid start l) as [r|l'] eqn:Hit.
    + exists r. reflexivity.
    + apply IH. apply iteration_continue in Hit. lia.
  - eexists. reflexivity.
Qed.

(** More fuel does not change the result. *)
Lemma loop_fuel_monotone (ch : Channel) (p : Params) (txid : Txid)
  (start : Z) :
  forall (fuel fuel' : nat) (l : Loop) (r : Run),
    (fuel <= fuel')%nat ->
    loop fuel ch p txid start l = Some r ->
    loop fuel' ch p txid start l = Some r.
Proof.
  induction fuel as [|fuel IH]; intros fuel' l r Hle H; [discriminate H|].
  destruct fuel' as [|fuel']; [lia|].
  simpl in *. destruct (clock l - start <? timeout p); [|exact H].
  destruct (iteration ch p txid start l); [exact H|].
  apply (IH fuel'); [lia|exact H].
Qed.

(** The function settles, whatever the channel does. *)
Lemma delivery_settles (ch : Channel) (p : Params) (t0 : Z) (fuel : nat) :
  (enoughFuel p <= fuel)%nat ->
  exists r, transactionSenderAndConfirmationWaiter fuel ch p t0 = Some r.
Proof.
  intro Hfuel. unfold transactionSenderAndConfirmationWaiter.
  destruct (firstSend ch) as [d txid|d].
  - apply loop_terminates. simpl. unfold enoughFuel in Hfuel. lia.
  - eexists. reflexivity.
Qed.

(** Against a channel that accepts every send and never confirms, the
    loop can only leave through its test. *)
Lemma loop_without_confirmation (ch : Channel) (p : Params) (txid : Txid)
  (start : Z) :
  (forall k, exists d t, resend ch k = Sent d t) ->
  neverConfirms ch ->
  forall (fuel : nat) (l : Loop) (r : Run),
    loop fuel ch p txid start l = Some r ->
    0 <= retries l <= Z.max 0 (sendRetries p) ->
    settled r = Fulfilled txid None
    /\ startedAt r = start
    /\ timeout p <= settledAt r - start
    /\ 1 <= broadcasts r <= Z.max 0 (sendRetries p) + 1.
Proof.
  intros Hsend Hnever.
  induction fuel as [|fuel IH]; intros l r H Hret; [discriminate H|].
  cbn [loop] in H.
  destruct (Z.ltb_spec (clock l - start) (timeout p)) as [Hin|Hout].
  - destruct (iteration ch p txid start l) as [r'|l'] eqn:Hit.
    + exfalso. revert Hit. split_iteration ch p l; intro Hit.
      * destruct (poll_cases ch p txid start
                    {| clock := clock l; lastSendTimestamp := clock l;
                       retries := retries l + 1; polls := polls l |}
                    (Z.of_N ds)) as [(w & r0 & Hr & _)|(w & _ & E)].
        -- simpl in Hr.
           pose proof (race_without_confirmation (query ch (polls l))
                         (Hnever (polls l))) as Hn.
           rewrite Hr in Hn. discriminate Hn.
        -- rewrite E in Hit. discriminate Hit.
      * destruct (Hsend (Z.to_nat (retries l))) as (d & t & E).
        rewrite E in Hresend. discriminate Hresend.
      * destruct (poll_cases ch p txid start l 0)
          as [(w & r0 & Hr & _)|(w & _ & E)].
        -- pose proof (race_without_confirmation (query ch (polls l))
                         (Hnever (polls l))) as Hn.
           rewrite Hr in Hn. discriminate Hn.
        -- rewrite E in Hit. discriminate Hit.
    + apply (IH l' r H).
      apply iteration_continue in Hit. lia.
  - injection H as <-.
    cbn [settled startedAt settledAt broadcasts].
    split; [reflexivity|]. split; [reflexivity|]. lia.
Qed.

(** An iteration that goes on has taken no longer than its send, the
    fixed wait and the sleep. *)
Lemma iteration_continue_within (ch : Channel) (p : Params) (txid : Txid)
  (start : Z) (l l' : Loop) (D : Z) :
  (forall k d t, resend ch k = Sent d t -> Z.of_N d <= D) ->
  0 <= D ->
  iteration ch p txid start l = Continue l' ->
  clock l' <= clock l + D + CONFIRMATION_WAIT + timerDelay (pollInterval p).
Proof.
  intros HD HD0. split_iteration ch p l; intro H; try discriminate H.
  - destruct (poll_cases ch p txid start
                {| clock := clock l; lastSendTimestamp := clock l;
                   retries := retries l + 1; polls := polls l |}
                (Z.of_N ds)) as [(w & r & _ & E)|(w & Hr & E)];
      rewrite E in H; [discriminate H|injection H as <-].
    pose proof (race_duration (query ch (polls l))) as Hw.
    simpl in Hr. rewrite Hr in Hw. simpl in Hw.
    apply HD in Hresend. simpl. lia.
  - destruct (poll_cases ch p txid start l 0)
      as [(w & r & _ & E)|(w & Hr & E)];
      rewrite E in H; [discriminate H|injection H as <-].
    pose proof (race_duration (query ch (polls l))) as Hw.
    rewrite Hr in Hw. simpl in Hw. simpl. lia.
Qed.

(** Against a channel that accepts every send and never confirms, the
    loop is left within one iteration of the deadline. *)
Lemma loop_leaves_within_an_iteration (ch : Channel) (p : Params)
  (txid : Txid) (start D : Z) :
  (forall k, exists d t, resend ch k = Sent d t) ->
  neverConfirms ch ->
  (forall k d t, resend ch k = Sent d t -> Z.of_N d <= D) ->
  0 <= D ->
  forall (fuel : nat) (l : Loop) (r : Run),
    loop fuel ch p txid start l = Some r ->
    clock l - start
    < Z.max 0 (timeout p) + D + CONFIRMATION_WAIT
      + timerDelay (pollInterval p) ->
    settledAt r - start
    < Z.max 0 (timeout p) + D + CONFIRMATION_WAIT
      + timerDelay (pollInterval p).
Proof.
  intros Hsend Hnever HD HD0.
  induction fuel as [|fuel IH]; intros l r H Hclock; [discriminate H|].
  cbn [loop] in H.
  destruct (Z.ltb_spec (clock l - start) (timeout p)) as [Hin|Hout].
  - destruct (iteration ch p txid start l) as [r'|l'] eqn:Hit.
    + exfalso.
      assert (Hone : loop 1 ch p txid start l = Some r').
      { cbn [loop]. destruct (Z.ltb_spec (clock l - start) (timeout p));
          [|lia]. rewrite Hit. reflexivity. }
      revert Hit. split_iteration ch p l; intro Hit.
      * destruct (poll_cases ch p txid start
                    {| clock := clock l; lastSendTimestamp := clock l;
                       retries := retries l + 1; polls := polls l |}
                    (Z.of_N ds)) as [(w & r0 & Hr & _)|(w & _ & E)].
        -- simpl in Hr.
           pose proof (race_without_confirmation (query ch (polls l))
                         (Hnever (polls l))) as Hn.
           rewrite Hr in Hn. discriminate Hn.
        -- rewrite E in Hit. discriminate Hit.
      * destruct (Hsend (Z.to_nat (retries l))) as (d & t & E).
        rewrite E in Hresend. discriminate Hresend.
      * destruct (poll_cases ch p txid start l 0)
          as [(w & r0 & Hr & _)|(w & _ & E)].
        -- pose proof (race_without_confirmation (query ch (polls l))
                         (Hnever (polls l))) as Hn.
           rewrite Hr in Hn. discriminate Hn.
        -- rewrite E in Hit. discriminate Hit.
    + apply (IH l' r H).
      apply (iteration_continue_within ch p txid start l l' D HD HD0) in Hit.
      lia.
  - injection H as <-. cbn [settledAt]. exact Hclock.
Qed.

(** C2, as stated, fails: against a channel that never confirms and
    answers each query after 100 ms, an iteration takes 1100 ms and the
    call made at time 0 with the default parameters returns at 121000,
    not at the deadline of 120000. *)
Lemma delivery_returns_after_the_deadline :
  accepts slowNotFound
  /\ neverConfirms slowNotFound
  /\ transactionSenderAndConfirmationWaiter
       (enoughFuel defaultParams) slowNotFound defaultParams 0
     = Some {| settled := Fulfilled "tx"%string None;
               startedAt := 0; settledAt := 121000; broadcasts := 22 |}
  /\ 121000 - 0 <> timeout defaultParams.
Proof.
  split; [|split; [|split]].
  - split; [exists 0%N, "tx"%string; reflexivity|].
    intro k. exists 0%N, "tx"%string. reflexivity.
  - intros i d r H. discriminate H.
  - vm_compute. reflexivity.
  - vm_compute. discriminate.
Qed.

(** C2, amended: against a channel that accepts every send and never
    reports a confirmation, the function returns a null
    [transactionResponse] at the first test of the loop at or after the
    deadline: the time elapsed since [start] is at least [timeout], and
    less than [timeout] plus the time of one iteration (a send of at most
    [D] ms, the fixed wait and the sleep); it has then made at most
    [sendRetries + 1] sends. *)
Theorem delivery_times_out (ch : Channel) (p : Params) (t0 : Z)
  (fuel : nat) :
  accepts ch ->
  neverConfirms ch ->
  (enoughFuel p <= fuel)%nat ->
  exists r txid,
    transactionSenderAndConfirmationWaiter fuel ch p t0 = Some r
    /\ settled r = Fulfilled txid None
    /\ timeout p <= settledAt r - startedAt r
    /\ broadcasts r <= Z.max 0 (sendRetries p) + 1
    /\ forall D,
         0 <= D ->
         (forall k d t, resend ch k = Sent d t -> Z.of_N d <= D) ->
         settledAt r - startedAt r
         < Z.max 0 (timeout p) + D + CONFIRMATION_WAIT
           + timerDelay (pollInterval p).
Proof.
  intros [[d0 [txid Hfirst]] Hsend] Hnever Hfuel.
  destruct (delivery_settles ch p t0 fuel Hfuel) as [r Hr].
  exists r, txid. split; [exact Hr|].
  unfold transactionSenderAndConfirmationWaiter in Hr.
  rewrite Hfirst in Hr.
  destruct (loop_without_confirmation ch p txid (t0 + Z.of_N d0)
              Hsend Hnever fuel _ r Hr) as (Hs & Hst & Ht & Hb).
  { simpl. lia. }
  rewrite Hst. repeat split; try assumption; try lia.
  intros D HD0 HD.
  apply (loop_leaves_within_an_iteration ch p txid (t0 + Z.of_N d0) D
           Hsend Hnever HD HD0 fuel _ r Hr).
  simpl. pose proof (timerDelay_positive (pollInterval p)).
  unfold CONFIRMATION_WAIT. lia.
Qed.

Lemma delivery_times_out_witness :
  exists r txid,
    transactionSenderAndConfirmationWaiter
      (enoughFuel defaultParams) slowNotFound defaultParams 0 = Some r
    /\ settled r = Fulfilled txid None
    /\ timeout defaultParams <= settledAt r - startedAt r
    /\ broadcasts r <= Z.max 0 (sendRetries defaultParams) + 1
    /\ settledAt r - startedAt r < 120000 + 0 + 1500 + 1000.
Proof.
  destruct (delivery_times_out slowNotFound defaultParams 0
              (enoughFuel defaultParams))
    as (r & txid & H1 & H2 & H3 & H4 & H5).
  - split; [exists 0%N, "tx"%string; reflexivity|].
    intro k. exists 0%N, "tx"%string. reflexivity.
  - intros i d r H. discriminate H.
  - apply le_n.
  - exists r, txid. repeat split; try assumption.
    apply (H5 0); [lia|].
    intros k d t E. injection E as <- _. lia.
Defined.

(** A failing status query is passed over: as long as the sends are
    accepted the function fulfils, it never rejects. *)
Lemma loop_fulfils_when_sends_accepted (ch : Channel) (p : Params)
  (txid : Txid) (start : Z) :
  (forall k, exists d t, resend ch k = Sent d t) ->
  forall (fuel : nat) (l : Loop) (r : Run),
    loop fuel ch p txid start l = Some r ->
    exists response, settled r = Fulfilled txid response.
Proof.
  intro Hsend.
  induction fuel as [|fuel IH]; intros l r H; [discriminate H|].
  cbn [loop] in H.
  destruct (clock l - start <? timeout p).
  - destruct (iteration ch p txid start l) as [r'|l'] eqn:Hit.
    + injection H as <-. revert Hit. split_iteration ch p l; intro Hit.
      * destruct (poll_cases ch p txid start
                    {| clock := clock l; lastSendTimestamp := clock l;
                       retries := retries l + 1; polls := polls l |}
                    (Z.of_N ds)) as [(w & r0 & _ & E)|(w & _ & E)];
          rewrite E in Hit; [injection Hit as <-|discriminate Hit].
        eexists. reflexivity.
      * destruct (Hsend (Z.to_nat (retries l))) as (d & t & E).
        rewrite E in Hresend. discriminate Hresend.
      * destruct (poll_cases ch p txid start l 0)
          as [(w & r0 & _ & E)|(w & _ & E)];
          rewrite E in Hit; [injection Hit as <-|discriminate Hit].
        eexists. reflexivity.
    + exact (IH l' r H).
  - injection H as <-. eexists. reflexivity.
Qed.

Lemma query_failures_absorbed (ch : Channel) (p : Params) (t0 : Z)
  (fuel : nat) (r : Run) :
  accepts ch ->
  transactionSenderAndConfirmationWaiter fuel ch p t0 = Some r ->
  exists txid response, settled r = Fulfilled txid response.
Proof.
  intros [[d0 [txid Hfirst]] Hsend] H.
  unfold transactionSenderAndConfirmationWaiter in H. rewrite Hfirst in H.
  exists txid. exact (loop_fulfils_when_sends_accepted ch p txid _ Hsend _ _ _ H).
Qed.

(** C5: where the code departs from the claim.  With the default
    parameters the first send of the loop is due at 7500 ms; when it
    fails, the function rejects at 7550 ms, long before the deadline of
    120000 ms: the failure is not taken as "no result yet". *)
Theorem resend_failure_aborts_delivery :
  transactionSenderAndConfirmationWaiter
    (enoughFuel defaultParams) failingResend defaultParams 0
  = Some {| settled := Rejected (NetworkError "sendRawTransaction");
            startedAt := 0; settledAt := 7550; broadcasts := 2 |}.
Proof. vm_compute. reflexivity. Qed.

(** C8, as stated, fails: the wait raced against the query lasts 1500 ms,
    which is not shorter than the [pollInterval] of every call the
    scripts make, 1000 ms. *)
Lemma confirmation_wait_not_shorter_than_poll_interval :
  fst (race Unanswered) = 1500
  /\ pollInterval defaultParams = 1000
  /\ ~ fst (race Unanswered) < pollInterval defaultParams.
Proof.
  split; [reflexivity|]. split; [reflexivity|]. vm_compute. discriminate.
Qed.

(** An iteration whose send, if any, is accepted is the poll that follows
    the send. *)
Lemma iteration_after_send (ch : Channel) (p : Params) (txid : Txid)
  (start : Z) (l : Loop) :
  (forall k, exists d t, resend ch k = Sent d t) ->
  iteration ch p txid start l
  = poll ch p txid start (afterSend p l) (sendLatency ch p l).
Proof.
  intro Hsend. unfold iteration, afterSend, sendLatency, resendDue.
  destruct ((retries l <? sendRetries p)
            && (sendInterval p <? clock l - lastSendTimestamp l)).
  - destruct (Hsend (Z.to_nat (retries l))) as (d & t & E). rewrite E.
    reflexivity.
  - reflexivity.
Qed.

(** C8, amended: in every iteration the status query is raced against a
    fixed wait of 1500 ms, whatever [pollInterval] is.  A query that
    fulfils with a confirmation after [d] ms, before the wait is over,
    makes the function return that confirmation at once: the call settles
    [d] ms after the send of the iteration (if one was due), without the
    rest of the wait and without the sleep of [pollInterval].  A
    confirmation that comes at 1500 ms or later, a query that fails and a
    query that is not answered are dropped after exactly 1500 ms, and the
    next iteration starts after the sleep of [pollInterval]. *)
Theorem confirmation_returned_at_once (ch : Channel) (p : Params)
  (txid : Txid) (start : Z) (l : Loop) (fuel : nat) :
  (forall k, exists d t, resend ch k = Sent d t) ->
  clock l - start < timeout p ->
  (forall d r,
      query ch (polls l) = Found d r ->
      Z.of_N d < CONFIRMATION_WAIT ->
      loop (S fuel) ch p txid start l
      = Some {| settled := Fulfilled txid (Some r);
                startedAt := start;
                settledAt := clock l + sendLatency ch p l + Z.of_N d;
                broadcasts := retries (afterSend p l) + 1 |})
  /\ ((exists d r, query ch (polls l) = Found d r
                   /\ CONFIRMATION_WAIT <= Z.of_N d)
      \/ query ch (polls l) = Unanswered
      \/ (exists d, query ch (polls l) = QueryFails d) ->
      iteration ch p txid start l
      = Continue {| clock := clock l + sendLatency ch p l
                             + CONFIRMATION_WAIT
                             + timerDelay (pollInterval p);
                    lastSendTimestamp := lastSendTimestamp (afterSend p l);
                    retries := retries (afterSend p l);
                    polls := S (polls l) |}).
Proof.
  intros Hsend Hin.
  assert (Hpolls : polls (afterSend p l) = polls l).
  { unfold afterSend. destruct (resendDue p l); reflexivity. }
  assert (Hclock : clock (afterSend p l) = clock l).
  { unfold afterSend. destruct (resendDue p l); reflexivity. }
  split.
  - intros d r Hq Hd.
    cbn [loop]. destruct (Z.ltb_spec (clock l - start) (timeout p)); [|lia].
    rewrite (iteration_after_send ch p txid start l Hsend).
    unfold poll. rewrite Hpolls, Hclock, Hq. unfold race.
    rewrite confirmation_wait_delay. unfold CONFIRMATION_WAIT in Hd.
    destruct (Z.ltb_spec (Z.of_N d) 1500); [reflexivity|lia].
  - intro Hq.
    assert (Hrace : race (query ch (polls l)) = (CONFIRMATION_WAIT, None)).
    { destruct Hq as [(d & r & Hq & Hd)|[Hq|[d Hq]]]; rewrite Hq;
        try reflexivity.
      unfold race. rewrite confirmation_wait_delay.
      unfold CONFIRMATION_WAIT in *.
      destruct (Z.ltb_spec (Z.of_N d) 1500); [lia|reflexivity]. }
    rewrite (iteration_after_send ch p txid start l Hsend).
    unfold poll. rewrite Hpolls, Hclock, Hrace. reflexivity.
Qed.

Lemma confirmation_returned_at_once_witness :
  loop 1 confirmsThird defaultParams "tx"%string 0
    {| clock := 6000; lastSendTimestamp := 0; retries := 0; polls := 2 |}
  = Some {| settled := Fulfilled "tx"%string (Some (Confirmed 7));
            startedAt := 0; settledAt := 6200; broadcasts := 2 |}.
Proof.
  refine (proj1 (confirmation_returned_at_once confirmsThird defaultParams
                   "tx"%string 0
                   {| clock := 6000; lastSendTimestamp := 0; retries := 0;
                      polls := 2 |} 0 _ _) 200%N (Confirmed 7) _ _).
  - intro k. exists 0%N, "tx"%string. reflexivity.
  - reflexivity.
  - reflexivity.
  - reflexivity.
Defined.

End DeliveryFacts.

(** ** The update payload *)

Module PayloadFacts.

Import Js Payload JsFacts RoundingFacts.

Lemma take_app {A : Type} (n : nat) (a b : list A) :
  List.length a = n -> firstn n (a ++ b) = a.
Proof.
  intros <-. induction a as [|x a IH]; simpl; [|rewrite IH]; auto.
Qed.

Lemma drop_app {A : Type} (n : nat) (a b : list A) :
  List.length a = n -> skipn n (a ++ b) = b.
Proof.
  intros <-. induction a as [|x a IH]; simpl; auto.
Qed.

Lemma length_le_bytes (n : nat) : forall v, List.length (le_bytes n v) = n.
Proof.
  induction n as [|n IH]; intro v; simpl; [|rewrite IH]; reflexivity.
Qed.

(** Reading back the bytes of [v] gives [v] modulo the width. *)
Lemma le_value_le_bytes (n : nat) :
  forall v, le_value (le_bytes n v) = v mod 256 ^ Z.of_nat n.
Proof.
  induction n as [|n IH]; intro v.
  - simpl. rewrite Z.mod_1_r. reflexivity.
  - cbn [le_bytes le_value]. rewrite IH.
    rewrite Nat2Z.inj_succ, Z.pow_succ_r by lia.
    rewrite Z.rem_mul_r; [reflexivity|lia|].
    apply Z.pow_pos_nonneg; lia.
Qed.

(** The bytes of a width do not see what lies above it. *)
Lemma le_bytes_mod (n : nat) :
  forall v, le_bytes n (v mod 256 ^ Z.of_nat n) = le_bytes n v.
Proof.
  induction n as [|n IH]; intro v; [reflexivity|].
  cbn [le_bytes].
  rewrite Nat2Z.inj_succ, Z.pow_succ_r by lia.
  assert (Hpos : 0 < 256 ^ Z.of_nat n) by (apply Z.pow_pos_nonneg; lia).
  rewrite Z.rem_mul_r by lia.
  set (X := (v / 256) mod 256 ^ Z.of_nat n).
  rewrite (Z.mul_comm 256 X). f_equal.
  - rewrite Z.mod_add by lia. apply Z.mod_mod. lia.
  - rewrite Z.div_add by lia.
    rewrite (Z.div_small (v mod 256) 256) by (apply Z.mod_pos_bound; lia).
    rewrite Z.add_0_l. exact (IH (v / 256)).
Qed.

Lemma le_bytes_app (n m : nat) :
  forall v,
    le_bytes (n + m) v = le_bytes n v ++ le_bytes m (v / 256 ^ Z.of_nat n).
Proof.
  induction n as [|n IH]; intro v.
  - simpl. rewrite Z.div_1_r. reflexivity.
  - cbn [le_bytes Nat.add app]. rewrite IH. do 2 f_equal.
    rewrite Nat2Z.inj_succ, Z.pow_succ_r by lia.
    rewrite Z.div_div; [reflexivity|lia|].
    apply Z.pow_pos_nonneg; lia.
Qed.

(** A 64-bit field is its low word followed by its high word. *)
Lemma le_bytes_words (z : Z) :
  le_bytes 8 z = le_bytes 4 (z mod V2E32) ++ le_bytes 4 (z / V2E32).
Proof.
  change 8%nat with (4 + 4)%nat. rewrite le_bytes_app.
  change (256 ^ Z.of_nat 4) with V2E32.
  f_equal. symmetry. exact (le_bytes_mod 4 z).
Qed.

Lemma writeIntLE_integer (n : nat) (lo hi : Z) (value : Q) (z : Z) :
  (value == inject_Z z)%Q ->
  lo <= z <= hi ->
  writeIntLE n lo hi value = Ok (le_bytes n z).
Proof.
  intros Hv [Hlo Hhi]. unfold writeIntLE.
  assert (H1 : Qltb (inject_Z hi) value = false).
  { apply Qltb_ge. rewrite Hv, <- Zle_Qle. exact Hhi. }
  assert (H2 : Qltb value (inject_Z lo) = false).
  { apply Qltb_ge. rewrite Hv, <- Zle_Qle. exact Hlo. }
  rewrite H1, H2. simpl. do 2 f_equal.
  unfold Qtrunc. destruct (Qle_bool 0 value).
  - rewrite Hv. apply Qfloor_Z.
  - rewrite Hv. apply Qceiling_Z.
Qed.

Lemma ns64_decode_bytes (z : Z) (rest : Bytes) :
  - 2 ^ 63 <= z < 2 ^ 63 ->
  ns64_decode (le_bytes 8 z ++ rest) = z.
Proof.
  intro Hz. unfold ns64_decode, readInt32LE, readUInt32LE, roundedInt64.
  rewrite le_bytes_words, <- app_assoc.
  rewrite (drop_app 4) by apply length_le_bytes.
  rewrite !(take_app 4) by apply length_le_bytes.
  rewrite !le_value_le_bytes.
  change (256 ^ Z.of_nat 4) with 4294967296.
  unfold V2E32. change (2 ^ 32) with 4294967296.
  change (2 ^ 31) with 2147483648.
  change (2 ^ 63) with 9223372036854775808 in Hz.
  destruct (Z.ltb_spec ((z / 4294967296) mod 4294967296) 2147483648);
    Z.div_mod_to_equations; lia.
Qed.

Lemma nu64_decode_bytes (z : Z) (rest : Bytes) :
  0 <= z < 2 ^ 64 ->
  nu64_decode (le_bytes 8 z ++ rest) = z.
Proof.
  intro Hz. unfold nu64_decode, readUInt32LE, roundedInt64.
  rewrite le_bytes_words, <- app_assoc.
  rewrite (drop_app 4) by apply length_le_bytes.
  rewrite !(take_app 4) by apply length_le_bytes.
  rewrite !le_value_le_bytes.
  change (256 ^ Z.of_nat 4) with 4294967296.
  unfold V2E32. change (2 ^ 32) with 4294967296.
  change (2 ^ 64) with 18446744073709551616 in Hz.
  Z.div_mod_to_equations. lia.
Qed.

(** Reading the layout back from well-formed fields. *)
Lemma decode_layout (zp zc st : Z) :
  - 2 ^ 63 <= zp < 2 ^ 63 ->
  0 <= zc < 2 ^ 64 ->
  0 <= st < 2 ^ 32 ->
  decode ([0] ++ le_bytes 8 zp ++ le_bytes 8 zc ++ le_bytes 4 st)
  = Some {| d_instruction := 0; d_price := zp;
            d_confidence := zc; d_status := st |}.
Proof.
  intros Hp Hc Hs. unfold decode.
  rewrite !length_app, !length_le_bytes. cbn [List.length Nat.add Nat.eqb span].
  f_equal. f_equal.
  - change (skipn 1 ([0] ++ le_bytes 8 zp ++ le_bytes 8 zc ++ le_bytes 4 st))
      with (le_bytes 8 zp ++ le_bytes 8 zc ++ le_bytes 4 st).
    apply ns64_decode_bytes. exact Hp.
  - change (skipn 9 ([0] ++ le_bytes 8 zp ++ le_bytes 8 zc ++ le_bytes 4 st))
      with (skipn 8 (le_bytes 8 zp ++ le_bytes 8 zc ++ le_bytes 4 st)).
    rewrite (drop_app 8) by apply length_le_bytes.
    apply nu64_decode_bytes. exact Hc.
  - change (skipn 17 ([0] ++ le_bytes 8 zp ++ le_bytes 8 zc ++ le_bytes 4 st))
      with (skipn 16 (le_bytes 8 zp ++ le_bytes 8 zc ++ le_bytes 4 st)).
    change 16%nat with (8 + 8)%nat. rewrite <- skipn_skipn.
    rewrite (drop_app 8) by apply length_le_bytes.
    rewrite (drop_app 8) by apply length_le_bytes.
    unfold readUInt32LE.
    rewrite <- (app_nil_r (le_bytes 4 st)).
    rewrite (take_app 4) by apply length_le_bytes.
    rewrite le_value_le_bytes. apply Z.mod_small.
    change (256 ^ Z.of_nat 4) with (2 ^ 32). exact Hs.
Qed.

(** The integer between [x - 1] and [x]. *)
Lemma Qfloor_unique (x : Q) (n : Z) :
  (inject_Z n <= x)%Q -> (x < inject_Z (n + 1))%Q -> Qfloor x = n.
Proof.
  intros Hlo Hhi.
  assert (H1 : n <= Qfloor x).
  { rewrite <- (Qfloor_Z n). apply Qfloor_resp_le. exact Hlo. }
  assert (H2 : Qfloor x < n + 1).
  { rewrite Zlt_Qlt. apply Qle_lt_trans with x; [apply Qfloor_le|exact Hhi]. }
  lia.
Qed.

(** What a writer has done when it did not throw. *)
Lemma writeIntLE_ok (n : nat) (lo hi : Z) (value : Q) (bs : Bytes) :
  writeIntLE n lo hi value = Ok bs ->
  (inject_Z lo <= value)%Q /\ (value <= inject_Z hi)%Q
  /\ bs = le_bytes n (Qtrunc value).
Proof.
  unfold writeIntLE.
  destruct (Qltb (inject_Z hi) value) eqn:H1; [discriminate|].
  destruct (Qltb value (inject_Z lo)) eqn:H2; [discriminate|].
  cbn [orb]. intro H. injection H as <-.
  apply Qltb_ge in H1. apply Qltb_ge in H2. auto.
Qed.

Lemma Qtrunc_nonnegative (q : Q) : (0 <= q)%Q -> Qtrunc q = Qfloor q.
Proof.
  intro H. unfold Qtrunc. apply Qle_bool_iff in H. rewrite H. reflexivity.
Qed.

Lemma Qtrunc_integer (z : Z) : Qtrunc (inject_Z z) = z.
Proof.
  unfold Qtrunc. destruct (Qle_bool 0 (inject_Z z));
    [apply Qfloor_Z|apply Qceiling_Z].
Qed.

(** Division by [V2E32] is exact on a double. *)
Lemma fdiv_V2E32 (src : Q) :
  representable64 src ->
  (fdiv src (inject_Z V2E32) == src / inject_Z V2E32)%Q.
Proof.
  intro H. unfold fdiv. apply round64_exact.
  apply (representable64_shift src 32); [lia|exact H].
Qed.

Lemma divmodInt64_hi32 (src : Q) :
  representable64 src ->
  fst (divmodInt64 src) = Qfloor (src / inject_Z V2E32).
Proof.
  intro H. unfold divmodInt64. cbn [fst].
  apply Qfloor_comp. apply fdiv_V2E32. exact H.
Qed.

(** So is the product of [V2E32] and an integer of 53 bits. *)
Lemma fmul_V2E32 (hi32 : Z) :
  Z.abs hi32 <= 2 ^ 53 ->
  (fmul (inject_Z hi32) (inject_Z V2E32) == inject_Z (hi32 * V2E32))%Q.
Proof.
  intro H. unfold fmul.
  assert (E : (inject_Z (hi32 * 2 ^ 32)
               == inject_Z hi32 * inject_Z V2E32)%Q)
    by (rewrite inject_Z_mult; reflexivity).
  rewrite round64_exact.
  - symmetry. exact E.
  - apply (representable64_eq _ _ E).
    apply representable64_integer; [exact H|lia].
Qed.

(** The two words of an integer of the 64-bit ranges are computed
    exactly. *)
Lemma divmodInt64_integer (src : Q) (z : Z) :
  representable64 src ->
  (src == inject_Z z)%Q ->
  - 2 ^ 63 <= z < 2 ^ 64 ->
  fst (divmodInt64 src) = z / V2E32
  /\ (snd (divmodInt64 src) == inject_Z (z mod V2E32))%Q.
Proof.
  intros Hr Hv Hz.
  assert (Hhi : fst (divmodInt64 src) = z / V2E32).
  { rewrite divmodInt64_hi32 by exact Hr. rewrite Hv.
    symmetry. apply Zdiv_Qdiv. }
  split; [exact Hhi|].
  unfold divmodInt64 in *. cbn [fst snd] in *. rewrite Hhi.
  assert (Hb : Z.abs (z / V2E32) <= 2 ^ 53).
  { unfold V2E32. apply Z.abs_le. split.
    - apply Z.div_le_lower_bound; lia.
    - apply Z.lt_le_incl. apply Z.div_lt_upper_bound; lia. }
  assert (E : (src - fmul (inject_Z (z / V2E32)) (inject_Z V2E32)
               == inject_Z (z mod V2E32))%Q).
  { rewrite (fmul_V2E32 _ Hb), Hv. unfold Qminus.
    rewrite <- inject_Z_opp, <- inject_Z_plus.
    rewrite Z.mod_eq by (unfold V2E32; lia).
    replace (z + - (z / V2E32 * V2E32)) with (z - V2E32 * (z / V2E32)) by ring.
    reflexivity. }
  unfold fsub. rewrite <- E. apply round64_exact.
  apply (representable64_eq (inject_Z (z mod V2E32 * 2 ^ 0))).
  - rewrite E, Z.mul_1_r. reflexivity.
  - apply representable64_integer; [|lia].
    pose proof (Z.mod_pos_bound z V2E32). unfold V2E32 in *. lia.
Qed.

Lemma ns64_encode_integer (src : Q) (z : Z) :
  representable64 src ->
  (src == inject_Z z)%Q ->
  - 2 ^ 63 <= z < 2 ^ 63 ->
  ns64_encode src = Ok (le_bytes 8 z).
Proof.
  intros Hr Hv Hz. unfold ns64_encode.
  destruct (divmodInt64_integer src z Hr Hv) as [Hhi Hlo]; [lia|].
  destruct (divmodInt64 src) as [hi32 lo32]. cbn [fst snd] in Hhi, Hlo.
  unfold writeUInt32LE, writeInt32LE.
  rewrite (writeIntLE_integer 4 0 (2 ^ 32 - 1) lo32 (z mod V2E32) Hlo).
  2:{ pose proof (Z.mod_pos_bound z V2E32). unfold V2E32 in *. lia. }
  rewrite (writeIntLE_integer 4 (- 2 ^ 31) (2 ^ 31 - 1) (inject_Z hi32) hi32).
  2:{ reflexivity. }
  2:{ subst hi32. unfold V2E32.
      split.
      - apply Z.div_le_lower_bound; lia.
      - apply Z.lt_le_pred. apply Z.div_lt_upper_bound; lia. }
  cbn [bind]. rewrite Hhi, le_bytes_words. reflexivity.
Qed.

Lemma nu64_encode_integer (src : Q) (z : Z) :
  representable64 src ->
  (src == inject_Z z)%Q ->
  0 <= z < 2 ^ 64 ->
  nu64_encode src = Ok (le_bytes 8 z).
Proof.
  intros Hr Hv Hz. unfold nu64_encode.
  destruct (divmodInt64_integer src z Hr Hv) as [Hhi Hlo]; [lia|].
  destruct (divmodInt64 src) as [hi32 lo32]. cbn [fst snd] in Hhi, Hlo.
  unfold writeUInt32LE.
  rewrite (writeIntLE_integer 4 0 (2 ^ 32 - 1) lo32 (z mod V2E32) Hlo).
  2:{ pose proof (Z.mod_pos_bound z V2E32). unfold V2E32 in *. lia. }
  rewrite (writeIntLE_integer 4 0 (2 ^ 32 - 1) (inject_Z hi32) hi32).
  2:{ reflexivity. }
  2:{ subst hi32. unfold V2E32.
      split.
      - apply Z.div_pos; lia.
      - apply Z.lt_le_pred. apply Z.div_lt_upper_bound; lia. }
  cbn [bind]. rewrite Hhi, le_bytes_words. reflexivity.
Qed.

(** The low word of a non-negative double is a double: it has no more
    bits than the number it is taken from. *)
Lemma low_word_representable (src : Q) (hi32 : Z) :
  representable64 src ->
  (0 <= src)%Q ->
  hi32 = Qfloor (src / inject_Z V2E32) ->
  0 <= hi32
  /\ (0 <= src - inject_Z (hi32 * V2E32))%Q
  /\ (src - inject_Z (hi32 * V2E32) < inject_Z V2E32)%Q
  /\ representable64 (src - inject_Z (hi32 * V2E32)).
Proof.
  intros (m & u & v & Hm & Hu & Hv & H) H0 Hhi.
  set (q := (src / inject_Z V2E32)%Q) in *.
  assert (Hsrc : (src == inject_Z V2E32 * q)%Q).
  { unfold q. symmetry. apply Qmult_div_r. discriminate. }
  pose proof (Qfloor_le q) as Hle. pose proof (Qlt_floor q) as Hlt.
  rewrite <- Hhi in Hle, Hlt. rewrite inject_Z_plus in Hlt.
  rewrite inject_Z_mult.
  change (inject_Z V2E32) with (4294967296 # 1) in *.
  change (inject_Z 1) with (1 # 1) in Hlt.
  assert (Hhi0 : 0 <= hi32).
  { rewrite Hhi. rewrite <- (Qfloor_Z 0). apply Qfloor_resp_le.
    change (inject_Z 0) with (0 # 1). lra. }
  assert (Hhi0' : (0 <= inject_Z hi32)%Q).
  { change 0%Q with (inject_Z 0). rewrite <- Zle_Qle. exact Hhi0. }
  set (lo := (src - inject_Z hi32 * (4294967296 # 1))%Q).
  assert (Hlo0 : (0 <= lo)%Q) by (unfold lo; lra).
  assert (Hlo1 : (lo < 4294967296 # 1)%Q) by (unfold lo; lra).
  assert (Hlo2 : (lo <= src)%Q) by (unfold lo; lra).
  split; [exact Hhi0|]. split; [exact Hlo0|]. split; [exact Hlo1|].
  destruct (Z_le_gt_dec v u) as [Huv|Huv].
  - set (n := m * 2 ^ (u - v)).
    assert (Hn : (src == inject_Z n)%Q).
    { apply (Qmult_inj_r _ _ (inject_Z (2 ^ v)));
        [apply inject_pow2_nonzero; lia|].
      rewrite H, <- inject_Z_mult. unfold n.
      rewrite <- Z.mul_assoc, <- Z.pow_add_r by lia.
      replace (u - v + v) with u by lia. reflexivity. }
    assert (El : (inject_Z ((n - hi32 * 4294967296) * 2 ^ 0) == lo)%Q).
    { unfold lo. rewrite Hn, Z.pow_0_r, Z.mul_1_r. unfold Z.sub.
      rewrite inject_Z_plus, inject_Z_opp, inject_Z_mult. reflexivity. }
    apply (representable64_eq _ _ El).
    apply representable64_integer; [|lia].
    rewrite <- El, Z.pow_0_r, Z.mul_1_r in Hlo0, Hlo1.
    change 0%Q with (inject_Z 0) in Hlo0.
    change (4294967296 # 1) with (inject_Z 4294967296) in Hlo1.
    rewrite <- Zle_Qle in Hlo0. rewrite <- Zlt_Qlt in Hlo1.
    change (2 ^ 53) with 9007199254740992. lia.
  - set (k := v - u).
    assert (Hk : (src * inject_Z (2 ^ k) == inject_Z m)%Q).
    { apply (Qmult_inj_r _ _ (inject_Z (2 ^ u)));
        [apply inject_pow2_nonzero; lia|].
      rewrite <- Qmult_assoc, <- !inject_Z_mult, <- Z.pow_add_r by lia.
      replace (k + u) with v by (unfold k; lia). exact H. }
    assert (Hp : (0 < inject_Z (2 ^ k))%Q).
    { change 0%Q with (inject_Z 0). rewrite <- Zlt_Qlt.
      apply pow2_pos. unfold k. lia. }
    set (m' := m - hi32 * 4294967296 * 2 ^ k).
    assert (El : (lo * inject_Z (2 ^ k) == inject_Z (m' * 2 ^ 0))%Q).
    { unfold lo, m'. rewrite Z.pow_0_r, Z.mul_1_r. unfold Z.sub.
      rewrite inject_Z_plus, inject_Z_opp, !inject_Z_mult, <- Hk.
      change (inject_Z 4294967296) with (4294967296 # 1). ring. }
    exists m', 0, k.
    split; [|split; [lia|split; [unfold k; lia|exact El]]].
    assert (B0 : (0 <= lo * inject_Z (2 ^ k))%Q).
    { apply Qmult_le_0_compat; [exact Hlo0|apply Qlt_le_weak; exact Hp]. }
    assert (B1 : (lo * inject_Z (2 ^ k) <= inject_Z m)%Q).
    { rewrite <- Hk. apply Qmult_le_compat_r;
        [exact Hlo2|apply Qlt_le_weak; exact Hp]. }
    rewrite El, Z.pow_0_r, Z.mul_1_r in B0, B1.
    change 0%Q with (inject_Z 0) in B0.
    rewrite <- Zle_Qle in B0, B1. lia.
Qed.

(** The two words of a non-negative double: the low word is exact, it
    lies in [0, 2^32), and the floor of the number is made of the high
    word and the floor of the low word. *)
Lemma divmodInt64_words (src : Q) :
  representable64 src ->
  (0 <= src)%Q ->
  fst (divmodInt64 src) <= 2 ^ 53 ->
  0 <= fst (divmodInt64 src)
  /\ (0 <= snd (divmodInt64 src))%Q
  /\ (snd (divmodInt64 src) < inject_Z V2E32)%Q
  /\ Qfloor src
     = fst (divmodInt64 src) * V2E32 + Qfloor (snd (divmodInt64 src)).
Proof.
  intros Hr H0 Hb.
  pose proof (divmodInt64_hi32 src Hr) as Hhi.
  change (snd (divmodInt64 src))
    with (fsub src (fmul (inject_Z (fst (divmodInt64 src)))
                         (inject_Z V2E32))).
  set (hi := fst (divmodInt64 src)) in *.
  destruct (low_word_representable src hi Hr H0 Hhi)
    as (Hh0 & Hl0 & Hl1 & Hlr).
  assert (Hm : (fmul (inject_Z hi) (inject_Z V2E32)
                == inject_Z (hi * V2E32))%Q).
  { apply fmul_V2E32. rewrite Z.abs_eq by exact Hh0. exact Hb. }
  assert (Ed : (src - inject_Z (hi * V2E32)
                == src - fmul (inject_Z hi) (inject_Z V2E32))%Q)
    by (rewrite Hm; reflexivity).
  assert (El : (fsub src (fmul (inject_Z hi) (inject_Z V2E32))
                == src - inject_Z (hi * V2E32))%Q).
  { unfold fsub. rewrite Ed. apply round64_exact.
    apply (representable64_eq _ _ Ed). exact Hlr. }
  set (lo := fsub src (fmul (inject_Z hi) (inject_Z V2E32))) in *.
  split; [exact Hh0|].
  split; [rewrite El; exact Hl0|].
  split; [rewrite El; exact Hl1|].
  pose proof (Qfloor_le lo) as Hf0. pose proof (Qlt_floor lo) as Hf1.
  rewrite inject_Z_plus in Hf1. rewrite inject_Z_mult in El.
  change (inject_Z V2E32) with (4294967296 # 1) in *.
  change (inject_Z 1) with (1 # 1) in Hf1.
  apply Qfloor_unique.
  - rewrite inject_Z_plus, inject_Z_mult.
    change (inject_Z V2E32) with (4294967296 # 1). lra.
  - rewrite !inject_Z_plus, inject_Z_mult.
    change (inject_Z V2E32) with (4294967296 # 1).
    change (inject_Z 1) with (1 # 1). lra.
Qed.

(** A 64-bit field that was written held a number of the range of the
    field. *)
Lemma ns64_encode_range (src : Q) (bs : Bytes) :
  representable64 src ->
  ns64_encode src = Ok bs ->
  (inject_Z (- 2 ^ 63) <= src)%Q /\ (src < inject_Z (2 ^ 63))%Q.
Proof.
  intro Hr. unfold ns64_encode.
  pose proof (divmodInt64_hi32 src Hr) as Hhi.
  destruct (divmodInt64 src) as [hi32 lo32]. cbn [fst] in Hhi.
  unfold writeUInt32LE, writeInt32LE.
  destruct (writeIntLE 4 0 (2 ^ 32 - 1) lo32) as [lo|]; [|discriminate].
  destruct (writeIntLE 4 (- 2 ^ 31) (2 ^ 31 - 1) (inject_Z hi32))
    as [hi|] eqn:Ehi; [|discriminate].
  intros _. apply writeIntLE_ok in Ehi. destruct Ehi as (Hmin & Hmax & _).
  set (q := (src / inject_Z V2E32)%Q) in *.
  assert (Hsrc : (src == inject_Z V2E32 * q)%Q).
  { unfold q. symmetry. apply Qmult_div_r. discriminate. }
  pose proof (Qfloor_le q) as Hle. pose proof (Qlt_floor q) as Hlt.
  rewrite <- Hhi in Hle, Hlt. rewrite inject_Z_plus in Hlt.
  change (inject_Z V2E32) with (4294967296 # 1) in *.
  change (inject_Z 1) with (1 # 1) in Hlt.
  change (inject_Z (- 2 ^ 31)) with (- 2147483648 # 1) in Hmin.
  change (inject_Z (2 ^ 31 - 1)) with (2147483647 # 1) in Hmax.
  change (inject_Z (- 2 ^ 63)) with (- 9223372036854775808 # 1).
  change (inject_Z (2 ^ 63)) with (9223372036854775808 # 1).
  split; lra.
Qed.

Lemma nu64_encode_range (src : Q) (bs : Bytes) :
  representable64 src ->
  nu64_encode src = Ok bs ->
  (0 <= src)%Q /\ (src < inject_Z (2 ^ 64))%Q.
Proof.
  intro Hr. unfold nu64_encode.
  pose proof (divmodInt64_hi32 src Hr) as Hhi.
  destruct (divmodInt64 src) as [hi32 lo32]. cbn [fst] in Hhi.
  unfold writeUInt32LE.
  destruct (writeIntLE 4 0 (2 ^ 32 - 1) lo32) as [lo|]; [|discriminate].
  destruct (writeIntLE 4 0 (2 ^ 32 - 1) (inject_Z hi32))
    as [hi|] eqn:Ehi; [|discriminate].
  intros _. apply writeIntLE_ok in Ehi. destruct Ehi as (Hmin & Hmax & _).
  set (q := (src / inject_Z V2E32)%Q) in *.
  assert (Hsrc : (src == inject_Z V2E32 * q)%Q).
  { unfold q. symmetry. apply Qmult_div_r. discriminate. }
  pose proof (Qfloor_le q) as Hle. pose proof (Qlt_floor q) as Hlt.
  rewrite <- Hhi in Hle, Hlt. rewrite inject_Z_plus in Hlt.
  change (inject_Z V2E32) with (4294967296 # 1) in *.
  change (inject_Z 1) with (1 # 1) in Hlt.
  change (inject_Z 0) with (0 # 1) in Hmin.
  change (inject_Z (2 ^ 32 - 1)) with (4294967295 # 1) in Hmax.
  change (inject_Z (2 ^ 64)) with (18446744073709551616 # 1).
  split; lra.
Qed.

(** A 64-bit field written from a non-negative double holds the floor of
    the number. *)
Lemma ns64_stores_floor (src : Q) (bs : Bytes) :
  representable64 src ->
  (0 <= src)%Q ->
  ns64_encode src = Ok bs ->
  bs = le_bytes 8 (Qfloor src) /\ 0 <= Qfloor src < 2 ^ 63.
Proof.
  intros Hr H0. unfold ns64_encode.
  pose proof (divmodInt64_words src Hr H0) as Hw.
  destruct (divmodInt64 src) as [hi32 lo32]. cbn [fst snd] in Hw.
  unfold writeUInt32LE, writeInt32LE.
  destruct (writeIntLE 4 0 (2 ^ 32 - 1) lo32) as [lo|] eqn:Elo;
    [|discriminate].
  destruct (writeIntLE 4 (- 2 ^ 31) (2 ^ 31 - 1) (inject_Z hi32))
    as [hi|] eqn:Ehi; [|discriminate].
  cbn [bind]. intro H. injection H as <-.
  apply writeIntLE_ok in Elo. destruct Elo as (_ & Hmax & ->).
  apply writeIntLE_ok in Ehi. destruct Ehi as (Hmin & Hmax' & ->).
  rewrite <- Zle_Qle in Hmin, Hmax'.
  destruct Hw as (Hh0 & Hl0 & Hl1 & Hfloor);
    [change (2 ^ 31 - 1) with 2147483647 in Hmax';
     change (2 ^ 53) with 9007199254740992; lia|].
  rewrite Qtrunc_integer, (Qtrunc_nonnegative lo32 Hl0).
  assert (Hn : 0 <= Qfloor lo32 <= 2 ^ 32 - 1).
  { split.
    - rewrite <- (Qfloor_Z 0). apply Qfloor_resp_le. exact Hl0.
    - rewrite <- (Qfloor_Z (2 ^ 32 - 1)). apply Qfloor_resp_le. exact Hmax. }
  rewrite Hfloor. unfold V2E32 in *.
  change (2 ^ 32) with 4294967296 in *.
  change (2 ^ 31) with 2147483648 in *.
  change (2 ^ 63) with 9223372036854775808.
  split; [|lia].
  rewrite le_bytes_words. unfold V2E32. change (2 ^ 32) with 4294967296.
  f_equal; f_equal; Z.div_mod_to_equations; lia.
Qed.

Lemma nu64_stores_floor (src : Q) (bs : Bytes) :
  representable64 src ->
  nu64_encode src = Ok bs ->
  bs = le_bytes 8 (Qfloor src) /\ 0 <= Qfloor src < 2 ^ 64.
Proof.
  intros Hr Hok.
  destruct (nu64_encode_range src bs Hr Hok) as [H0 _].
  revert Hok. unfold nu64_encode.
  pose proof (divmodInt64_words src Hr H0) as Hw.
  destruct (divmodInt64 src) as [hi32 lo32]. cbn [fst snd] in Hw.
  unfold writeUInt32LE.
  destruct (writeIntLE 4 0 (2 ^ 32 - 1) lo32) as [lo|] eqn:Elo;
    [|discriminate].
  destruct (writeIntLE 4 0 (2 ^ 32 - 1) (inject_Z hi32))
    as [hi|] eqn:Ehi; [|discriminate].
  cbn [bind]. intro H. injection H as <-.
  apply writeIntLE_ok in Elo. destruct Elo as (_ & Hmax & ->).
  apply writeIntLE_ok in Ehi. destruct Ehi as (Hmin & Hmax' & ->).
  rewrite <- Zle_Qle in Hmin, Hmax'.
  destruct Hw as (Hh0 & Hl0 & Hl1 & Hfloor);
    [change (2 ^ 32 - 1) with 4294967295 in Hmax';
     change (2 ^ 53) with 9007199254740992; lia|].
  rewrite Qtrunc_integer, (Qtrunc_nonnegative lo32 Hl0).
  assert (Hn : 0 <= Qfloor lo32 <= 2 ^ 32 - 1).
  { split.
    - rewrite <- (Qfloor_Z 0). apply Qfloor_resp_le. exact Hl0.
    - rewrite <- (Qfloor_Z (2 ^ 32 - 1)). apply Qfloor_resp_le. exact Hmax. }
  rewrite Hfloor. unfold V2E32 in *.
  change (2 ^ 32) with 4294967296 in *.
  change (2 ^ 64) with 18446744073709551616.
  split; [|lia].
  rewrite le_bytes_words. unfold V2E32. change (2 ^ 32) with 4294967296.
  f_equal; f_equal; Z.div_mod_to_equations; lia.
Qed.

(** The steps of [composeUpdatePriceTransaction] when it returns. *)
Lemma compose_steps (price confidence : Q) (status : Z) (data : Bytes) :
  composeUpdatePriceTransaction price confidence status = Ok data ->
  exists p c,
    ns64_encode (fmul price 100000000) = Ok p
    /\ nu64_encode (fmul confidence 10000) = Ok c
    /\ data = [0] ++ p ++ c ++ le_bytes 4 status
    /\ 0 <= status < 2 ^ 32.
Proof.
  unfold composeUpdatePriceTransaction, encode.
  cbn [Payload.instruction Payload.price Payload.confidence Payload.status].
  change (writeUInt8 0) with (Ok (A := Bytes) [0]). cbn [bind].
  destruct (ns64_encode (fmul price 100000000)) as [p|]; [|discriminate].
  destruct (nu64_encode (fmul confidence 10000)) as [c|]; [|discriminate].
  cbn [bind]. unfold writeUInt32LE.
  destruct (writeIntLE 4 0 (2 ^ 32 - 1) (inject_Z status)) as [s|] eqn:Es;
    [|discriminate].
  cbn [bind]. intro H. injection H as <-.
  apply writeIntLE_ok in Es. destruct Es as (Hmin & Hmax & ->).
  rewrite <- Zle_Qle in Hmin, Hmax. rewrite Qtrunc_integer.
  exists p, c. repeat split; try reflexivity; lia.
Qed.

(** A payload that was built from a non-negative price reads back as the
    scaled values, as computed, rounded down to integers. *)
Lemma payload_stores_floor (price confidence : Q) (status : Z)
  (data : Bytes) :
  (0 <= price)%Q ->
  composeUpdatePriceTransaction price confidence status = Ok data ->
  data = [0] ++ le_bytes 8 (Qfloor (fmul price 100000000))
             ++ le_bytes 8 (Qfloor (fmul confidence 10000))
             ++ le_bytes 4 status
  /\ 0 <= Qfloor (fmul price 100000000) < 2 ^ 63
  /\ 0 <= Qfloor (fmul confidence 10000) < 2 ^ 64
  /\ 0 <= status < 2 ^ 32.
Proof.
  intros H0 H. apply compose_steps in H.
  destruct H as (p & c & Ep & Ec & -> & Hs).
  apply ns64_stores_floor in Ep.
  - apply nu64_stores_floor in Ec; [|apply round64_representable].
    destruct Ep as [-> Hp]. destruct Ec as [-> Hc]. auto.
  - apply round64_representable.
  - apply round64_nonneg. apply Qmult_le_0_compat; [exact H0|discriminate].
Qed.




(** C6, as stated, fails.  The price 1/1024 = 0.0009765625 scales to
    97656.25; the payload holds 97656, and that is what a reader finds.
    And the price 1e11 scales to 1e19, beyond the signed 64-bit range: no
    payload is built. *)
Lemma fractional_scaled_price_not_reproduced :
  (fmul (1 # 1024) 100000000 = 390625 # 4
   /\ composeUpdatePriceTransaction (1 # 1024) 0 1
      = Ok [0; 120; 125; 1; 0; 0; 0; 0; 0; 0; 0; 0; 0; 0; 0; 0; 0; 1; 0; 0; 0]
   /\ decode
        [0; 120; 125; 1; 0; 0; 0; 0; 0; 0; 0; 0; 0; 0; 0; 0; 0; 1; 0; 0; 0]
      = Some {| d_instruction := 0; d_price := 97656;
                d_confidence := 0; d_status := 1 |}
   /\ ~ (inject_Z 97656 == fmul (1 # 1024) 100000000)%Q)
  /\ (fmul 100000000000 100000000 = 10000000000000000000 # 1
      /\ composeUpdatePriceTransaction 100000000000 0 1 = Throw RangeError).
Proof.
  split; [split; [|split; [|split]]|split]; try (vm_compute; reflexivity).
  intro H. vm_compute in H. discriminate H.
Qed.

(** C6, amended: when the scaled price [price * 1e8], as the code computes
    it in doubles, is an integer of the signed 64-bit range, the scaled
    confidence [confidence * 1e4] an integer of the unsigned 64-bit range
    and [status] an integer of the unsigned 32-bit range, the payload is
    the 21 bytes [instruction = 0 : u8][price * 1e8 : signed 64-bit]
    [confidence * 1e4 : unsigned 64-bit][status : u32], little-endian, and
    reading the layout back gives these three values exactly, zero and
    negative prices included. *)
Theorem payload_round_trip (price confidence : Q) (status zp zc : Z) :
  (fmul price 100000000 == inject_Z zp)%Q ->
  (fmul confidence 10000 == inject_Z zc)%Q ->
  - 2 ^ 63 <= zp < 2 ^ 63 ->
  0 <= zc < 2 ^ 64 ->
  0 <= status < 2 ^ 32 ->
  exists data,
    composeUpdatePriceTransaction price confidence status = Ok data
    /\ data = [0] ++ le_bytes 8 zp ++ le_bytes 8 zc ++ le_bytes 4 status
    /\ List.length data = span
    /\ decode data
       = Some {| d_instruction := 0; d_price := zp;
                 d_confidence := zc; d_status := status |}.
Proof.
  intros Hp Hc Hzp Hzc Hst.
  exists ([0] ++ le_bytes 8 zp ++ le_bytes 8 zc ++ le_bytes 4 status).
  split; [|split; [reflexivity|split]].
  - unfold composeUpdatePriceTransaction, encode.
    cbn [Payload.instruction Payload.price Payload.confidence Payload.status].
    change (writeUInt8 0) with (Ok (A := Bytes) [0]). cbn [bind].
    rewrite (ns64_encode_integer (fmul price 100000000) zp
               (round64_representable _) Hp Hzp).
    cbn [bind].
    rewrite (nu64_encode_integer (fmul confidence 10000) zc
               (round64_representable _) Hc Hzc).
    cbn [bind]. unfold writeUInt32LE.
    rewrite (writeIntLE_integer 4 0 (2 ^ 32 - 1) (inject_Z status) status);
      [reflexivity|reflexivity|lia].
  - rewrite !length_app, !length_le_bytes. reflexivity.
  - apply decode_layout; assumption.
Qed.

Lemma payload_round_trip_witness :
  exists data,
    composeUpdatePriceTransaction (- (5 # 2)) (1 # 2) 1 = Ok data
    /\ data = [0] ++ le_bytes 8 (-250000000) ++ le_bytes 8 5000
              ++ le_bytes 4 1
    /\ List.length data = span
    /\ decode data
       = Some {| d_instruction := 0; d_price := -250000000;
                 d_confidence := 5000; d_status := 1 |}.
Proof.
  apply (payload_round_trip (- (5 # 2)) (1 # 2) 1 (-250000000) 5000).
  - vm_compute. reflexivity.
  - vm_compute. reflexivity.
  - lia.
  - lia.
  - lia.
Defined.

Example payload_of_zero_price :
  composeUpdatePriceTransaction 0 0 0 = Ok (repeat 0 21).
Proof. vm_compute. reflexivity. Qed.

Example payload_of_negative_price :
  composeUpdatePriceTransaction (- (5 # 2)) (1 # 2) 1
  = Ok [0; 128; 77; 25; 241; 255; 255; 255; 255;
        136; 19; 0; 0; 0; 0; 0; 0; 1; 0; 0; 0].
Proof. vm_compute. reflexivity. Qed.

(** The product is rounded before it is written: the double nearest to
    90071992.55078125 scales to 9007199255078124, not ...125. *)
Example payload_of_rounded_product :
  fmul (9007199255078125 # 100000000) 100000000 = 9007199255078124 # 1.
Proof. vm_compute. reflexivity. Qed.

End PayloadFacts.

(** ** Publishing: [updatePrice], the tick and the startup check *)

Module PublisherFacts.

Import Oracle Scenarios JsFacts.

(** Logging does not touch the three fields. *)
Lemma needUpdate_emit (cfg : Config) (e : Effect) (m : Main) (price : Q)
  (now : Z) :
  needUpdate cfg (emit e m) price now = needUpdate cfg m price now.
Proof. reflexivity. Qed.

(** The two ways [updatePrice] ends: it returns, having launched one
    delivery and set the three fields; or it throws before the launch,
    with the fields and the deliveries as they were. *)
Lemma updatePrice_cases (s : Script) (cfg : Config) (bh : BlockhashOutcome)
  (price : Q) (status now : Z) (m : Main) :
  (exists data h,
      Payload.composeUpdatePriceTransaction
        (oraclePrice s price) (confidence cfg) status = Ok data
      /\ bh = LatestBlockhash h
      /\ updatePrice s cfg bh price status now m
         = (Ok tt,
            {| lastUpdate := now; lastPrice := price; lastStatus := status;
               effects := Submitted data h
                          :: DebugUpdating price status now :: effects m |}))
  \/ (exists e,
         updatePrice s cfg bh price status now m
         = (Throw e, emit (DebugUpdating price status now) m)).
Proof.
  unfold updatePrice.
  destruct (Payload.composeUpdatePriceTransaction
              (oraclePrice s price) (confidence cfg) status) as [data|e].
  - destruct bh as [h|].
    + left. exists data, h. repeat split.
    + right. eexists. reflexivity.
  - right. exists e. reflexivity.
Qed.

(** What holds of the three fields: a call of [updatePrice] either
    returns, and then [lastPrice], [lastStatus] and [lastUpdate] are the
    arguments [price], [status] and [now], and stay so when the launched
    delivery fulfils, with a confirmation or at the deadline without one;
    or it throws before the launch, as when no blockhash is obtained, and
    then the three fields and the launched deliveries are what they
    were. *)
Lemma updatePrice_fields (s : Script) (cfg : Config)
  (bh : BlockhashOutcome) (price : Q) (status now : Z) (m : Main) :
  (exists m',
      updatePrice s cfg bh price status now m = (Ok tt, m')
      /\ lastPrice m' = price
      /\ lastStatus m' = status
      /\ lastUpdate m' = now
      /\ forall txid r,
           onDeliverySettled (Delivery.Fulfilled txid r) m'
           = Running {| lastUpdate := now; lastPrice := price;
                        lastStatus := status;
                        effects := DebugExecuted txid :: effects m' |})
  \/ (exists e m',
         updatePrice s cfg bh price status now m = (Throw e, m')
         /\ lastPrice m' = lastPrice m
         /\ lastStatus m' = lastStatus m
         /\ lastUpdate m' = lastUpdate m
         /\ submissions m' = submissions m
         /\ (bh = BlockhashFails
             \/ Payload.composeUpdatePriceTransaction
                  (oraclePrice s price) (confidence cfg) status = Throw e)).
Proof.
  unfold updatePrice.
  destruct (Payload.composeUpdatePriceTransaction
              (oraclePrice s price) (confidence cfg) status) as [data|e].
  - destruct bh as [h|].
    + left. eexists. split; [reflexivity|]. cbn.
      repeat split; reflexivity.
    + right. do 2 eexists. split; [reflexivity|].
      repeat split. left. reflexivity.
  - right. exists e. eexists. split; [reflexivity|].
    repeat split. right. reflexivity.
Qed.

(** A rejection of the delivery is handled nowhere: whatever the state,
    the process ends on it. *)
Lemma rejected_delivery_unhandled (e : Exn) (m : Main) :
  onDeliverySettled (Delivery.Rejected e) m = Ended e.
Proof. reflexivity. Qed.


Example updatePrice_without_blockhash :
  updatePrice JupiterScript scenarioConfig BlockhashFails
    102 1 1001000 (publishedAt 1000000 100 1)
  = (Throw (NetworkError "getLatestBlockhash"),
     {| lastUpdate := 1000000; lastPrice := 100; lastStatus := 1;
        effects := [DebugUpdating 102 1 1001000] |}).
Proof. reflexivity. Qed.


Lemma statusOf_values (cfg : Config) (bid ask : Q) :
  statusOf cfg bid ask = 0 \/ statusOf cfg bid ask = 1.
Proof.
  unfold statusOf.
  destruct ((negb (allowNegativeSpread cfg) && Qltb ask bid)
            || (Qltb (getMarkPrice bid ask) (minThreshold cfg)
                || Qltb (maxThreshold cfg) (getMarkPrice bid ask)));
    auto.
Qed.



Example negative_spread_is_invalid :
  statusOf scenarioConfig 103 101 = 0.
Proof. reflexivity. Qed.

Example quote_within_bounds_is_valid :
  statusOf scenarioConfig 101 103 = 1.
Proof. reflexivity. Qed.

Lemma inactive_stale (cfg : Config) (m : Main) (now : Z) :
  inactive cfg m now = true <-> stale cfg m now.
Proof.
  unfold inactive, stale.
  rewrite !andb_true_iff, !truthyZ_nonzero, Z.ltb_lt. tauto.
Qed.

(** A tick without an observation leaves the state to the inactivity
    rule as it was. *)
Lemma publish_without_observation (cfg : Config) (t : TickInput) (m : Main) :
  (quote t = NoRoute -> publish JupiterScript cfg t m = (Ok tt, m))
  /\ (forall p, marinade t = MSolPrice p -> (p == 0)%Q ->
      publish MsolScript cfg t m = (Ok tt, m)).
Proof.
  split.
  - intro H. simpl. rewrite H. reflexivity.
  - intros p H Hp. simpl. rewrite H. simpl.
    apply truthyQ_zero in Hp. rewrite Hp. reflexivity.
Qed.



Example silentTick_disables :
  tick JupiterScript twoMinutesConfig silentTick
    (publishedAt 1000000 100 1)
  = (Ok tt,
     {| lastUpdate := 1120001; lastPrice := 100; lastStatus := 0;
        effects :=
          [Submitted [0; 0; 228; 11; 84; 2; 0; 0; 0;
                      0; 0; 0; 0; 0; 0; 0; 0; 0; 0; 0; 0] "h";
           DebugUpdating 100 0 1120001; WarnDisabling 120000] |}).
Proof. vm_compute. reflexivity. Qed.


(** What the startup check tests. *)
Lemma refusesToStart_iff (cfg : Config) :
  refusesToStart cfg = true
  <-> inactiveDuration cfg <> 0
      /\ inactiveDuration cfg < updateInterval cfg.
Proof.
  unfold refusesToStart.
  rewrite andb_true_iff, truthyZ_nonzero, Z.ltb_lt. tauto.
Qed.

(** A refused start logs the configuration error and returns: no tick
    runs and nothing is published. *)
Lemma refused_start_publishes_nothing (s : Script) (cfg : Config)
  (tokensListed : bool) (ticks : list TickInput) (m : Main) :
  refusesToStart cfg = true ->
  main s (Some cfg) tokensListed ticks m
  = emit (ErrorLogged
            "inappropriate config: 'inactiveDuration' must be longer than 'updateInterval'")
         m
  /\ submissions (main s (Some cfg) tokensListed ticks m) = submissions m.
Proof.
  intro H. unfold main. rewrite H. split; reflexivity.
Qed.

(** With [inactiveDuration] 0 or above [updateInterval] the check lets
    the script go on to its loop. *)
Lemma accepted_start_runs (s : Script) (cfg : Config)
  (ticks : list TickInput) (m : Main) :
  inactiveDuration cfg = 0 \/ updateInterval cfg < inactiveDuration cfg ->
  refusesToStart cfg = false
  /\ main s (Some cfg) true ticks m = run s cfg ticks m.
Proof.
  intro H.
  assert (E : refusesToStart cfg = false).
  { destruct (refusesToStart cfg) eqn:E; [|reflexivity].
    apply refusesToStart_iff in E. lia. }
  split; [exact E|]. unfold main. rewrite E. destruct s; reflexivity.
Qed.

Example startup_scenario_refused :
  main JupiterScript (Some (configWithDurations 500 1000)) true [firstTick]
    initialMain
  = emit (ErrorLogged
            "inappropriate config: 'inactiveDuration' must be longer than 'updateInterval'")
         initialMain.
Proof. reflexivity. Qed.

(** C9: where the code departs from the claim.  With [inactiveDuration]
    equal to [updateInterval], both 1000, [inactiveDuration] is not 0 and
    does not exceed [updateInterval], yet the check lets the script
    start: the first tick publishes. *)
Theorem equal_durations_not_refused :
  inactiveDuration (configWithDurations 1000 1000) <> 0
  /\ inactiveDuration (configWithDurations 1000 1000)
     <= updateInterval (configWithDurations 1000 1000)
  /\ refusesToStart (configWithDurations 1000 1000) = false
  /\ submissions
       (main JupiterScript (Some (configWithDurations 1000 1000)) true
          [firstTick] initialMain)
     = [[0; 0; 225; 245; 5; 0; 0; 0; 0; 0; 0; 0; 0; 0; 0; 0; 0; 1; 0; 0; 0]].
Proof.
  split; [discriminate|]. split; [discriminate|].
  split; [reflexivity|]. vm_compute. reflexivity.
Qed.

(** A tick that throws, as on the assertion of [needUpdate], is logged by
    the outer loop, which sleeps and goes on with the fields unchanged. *)
Example assertion_reaches_outer_loop :
  run JupiterScript scenarioConfig
    [{| now := 1030000; quote := Quoted 102 102; marinade := MarinadeFails;
        blockhashForUpdate := LatestBlockhash "h";
        blockhashForDisable := LatestBlockhash "h" |}]
    (publishedAt 1000000 0 0)
  = {| lastUpdate := 1000000; lastPrice := 0; lastStatus := 0;
       effects := [Slept 10000; ErrorLogged "error in main persistent loop";
                   DebugQuote 102 102 (204 # 2)] |}.
Proof. vm_compute. reflexivity. Qed.

End PublisherFacts.

(** ** The delivery protocol, whatever the channel does *)

Module DeliveryMore.

Import Delivery Scenarios MoreScenarios JsFacts DeliveryFacts.

(** A response of the race is a confirmation the query gave in time. *)
Lemma race_confirmation (q : QueryOutcome) (w : Z)
  (resp : TransactionResponse) :
  race q = (w, Some resp) ->
  exists d, q = Found d resp /\ Z.of_N d < CONFIRMATION_WAIT /\ w = Z.of_N d.
Proof.
  unfold race. rewrite confirmation_wait_delay. unfold CONFIRMATION_WAIT.
  destruct q as [d r|d| |]; try discriminate.
  - destruct (Z.ltb_spec (Z.of_N d) 1500) as [Hd|Hd]; [|discriminate].
    intro H. injection H as <- <-. exists d. auto.
  - destruct (Z.of_N d <? 1500); discriminate.
Qed.

(** The first half of an iteration: a failed send, which ends the call,
    or the state [l1] and the time [s] with which the poll is entered. *)
Lemma iteration_shape (ch : Channel) (p : Params) (txid : Txid) (start : Z)
  (l : Loop) :
  (exists d,
      resend ch (Z.to_nat (retries l)) = SendFails d
      /\ retries l < sendRetries p
      /\ sendInterval p < clock l - lastSendTimestamp l
      /\ iteration ch p txid start l
         = Return {| settled := Rejected (NetworkError "sendRawTransaction");
                     startedAt := start;
                     settledAt := clock l + Z.of_N d;
                     broadcasts := retries l + 1 + 1 |})
  \/ (exists l1 s,
         iteration ch p txid start l = poll ch p txid start l1 s
         /\ 0 <= s
         /\ clock l1 = clock l
         /\ polls l1 = polls l
         /\ ((l1 = l /\ s = 0)
             \/ (retries l < sendRetries p
                 /\ sendInterval p < clock l - lastSendTimestamp l
                 /\ retries l1 = retries l + 1
                 /\ lastSendTimestamp l1 = clock l
                 /\ exists d t,
                      resend ch (Z.to_nat (retries l)) = Sent d t
                      /\ s = Z.of_N d))).
Proof.
  unfold iteration.
  destruct (Z.ltb_spec (retries l) (sendRetries p)) as [Hr|Hr]; cbn [andb].
  - destruct (Z.ltb_spec (sendInterval p) (clock l - lastSendTimestamp l))
      as [Hi|Hi].
    + destruct (resend ch (Z.to_nat (retries l))) as [d t|d] eqn:E.
      * right. eexists. exists (Z.of_N d).
        split; [reflexivity|]. split; [lia|]. cbn [clock polls].
        split; [reflexivity|]. split; [reflexivity|]. right.
        cbn [retries lastSendTimestamp]. repeat split; try assumption.
        exists d, t. split; reflexivity.
      * left. exists d. repeat split; assumption.
    + right. exists l, 0. repeat split; try lia. left. split; reflexivity.
  - right. exists l, 0. repeat split; try lia. left. split; reflexivity.
Qed.

(** The number of sends stays within its bound. *)
Lemma loop_broadcasts (ch : Channel) (p : Params) (txid : Txid) (start : Z) :
  forall (fuel : nat) (l : Loop) (r : Run),
    loop fuel ch p txid start l = Some r ->
    0 <= retries l <= Z.max 0 (sendRetries p) ->
    startedAt r = start
    /\ 1 <= broadcasts r <= Z.max 0 (sendRetries p) + 1.
Proof.
  induction fuel as [|fuel IH]; intros l r H Hret; [discriminate H|].
  cbn [loop] in H. destruct (clock l - start <? timeout p).
  - destruct (iteration_shape ch p txid start l)
      as [(d & _ & Hlt & _ & E)|(l1 & s & E & _ & _ & _ & Hl1)];
      rewrite E in H.
    + injection H as <-. cbn [startedAt broadcasts]. split; [reflexivity|lia].
    + assert (Hret1 : 0 <= retries l1 <= Z.max 0 (sendRetries p)).
      { destruct Hl1 as [[-> _]|(Hlt & _ & -> & _)]; lia. }
      destruct (poll_cases ch p txid start l1 s)
        as [(w & resp & _ & E')|(w & _ & E')]; rewrite E' in H.
      * injection H as <-. cbn [startedAt broadcasts].
        split; [reflexivity|lia].
      * apply (IH _ r H). cbn [retries]. exact Hret1.
  - injection H as <-. cbn [startedAt broadcasts]. split; [reflexivity|lia].
Qed.

(** Every send of the loop comes more than [sendInterval] after the one
    before, so the sends made fit in the time elapsed. *)
Lemma loop_pacing (ch : Channel) (p : Params) (txid : Txid) (start : Z) :
  0 <= sendInterval p ->
  forall (fuel : nat) (l : Loop) (r : Run),
    loop fuel ch p txid start l = Some r ->
    0 <= retries l ->
    retries l * sendInterval p <= lastSendTimestamp l - start ->
    lastSendTimestamp l <= clock l ->
    (broadcasts r - 1) * sendInterval p <= settledAt r - start.
Proof.
  intro Hsi.
  induction fuel as [|fuel IH]; intros l r H H0 Hinv Hlast; [discriminate H|].
  cbn [loop] in H. destruct (clock l - start <? timeout p).
  - destruct (iteration_shape ch p txid start l)
      as [(d & _ & _ & Hdue & E)|(l1 & s & E & Hs & Hc & _ & Hl1)];
      rewrite E in H.
    + injection H as <-. cbn [settledAt broadcasts].
      replace (retries l + 1 + 1 - 1) with (retries l + 1) by lia.
      rewrite Z.mul_add_distr_r. lia.
    + assert (Hinv1 : 0 <= retries l1
                      /\ retries l1 * sendInterval p
                         <= lastSendTimestamp l1 - start
                      /\ lastSendTimestamp l1 <= clock l1).
      { destruct Hl1 as [[-> _]|(_ & Hdue & -> & -> & _)].
        - auto.
        - rewrite Hc, Z.mul_add_distr_r. lia. }
      destruct Hinv1 as (H01 & Hinv1 & Hlast1).
      destruct (poll_cases ch p txid start l1 s)
        as [(w & resp & Hr & E')|(w & Hr & E')]; rewrite E' in H.
      * injection H as <-. cbn [settledAt broadcasts].
        pose proof (race_duration (query ch (polls l1))) as Hw.
        rewrite Hr in Hw. cbn [fst] in Hw.
        replace (retries l1 + 1 - 1) with (retries l1) by lia. lia.
      * apply (IH _ r H); cbn [retries lastSendTimestamp clock];
          try assumption.
        pose proof (race_duration (query ch (polls l1))) as Hw.
        rewrite Hr in Hw. cbn [fst] in Hw.
        pose proof (timerDelay_positive (pollInterval p)). lia.
  - injection H as <-. cbn [settledAt broadcasts].
    replace (retries l + 1 - 1) with (retries l) by lia. lia.
Qed.

(** The three ways the loop ends. *)
Lemma loop_outcome (ch : Channel) (p : Params) (txid : Txid) (start : Z) :
  forall (fuel : nat) (l : Loop) (r : Run),
    loop fuel ch p txid start l = Some r ->
    (settled r = Fulfilled txid None /\ timeout p <= settledAt r - start)
    \/ (exists resp i d,
           settled r = Fulfilled txid (Some resp)
           /\ query ch i = Found d resp
           /\ Z.of_N d < CONFIRMATION_WAIT)
    \/ (exists k d,
           settled r = Rejected (NetworkError "sendRawTransaction")
           /\ resend ch k = SendFails d).
Proof.
  induction fuel as [|fuel IH]; intros l r H; [discriminate H|].
  cbn [loop] in H.
  destruct (Z.ltb_spec (clock l - start) (timeout p)) as [Hin|Hout].
  - destruct (iteration_shape ch p txid start l)
      as [(d & Hf & _ & _ & E)|(l1 & s & E & _ & _ & _ & _)];
      rewrite E in H.
    + injection H as <-. right. right. exists (Z.to_nat (retries l)), d.
      split; [reflexivity|exact Hf].
    + destruct (poll_cases ch p txid start l1 s)
        as [(w & resp & Hr & E')|(w & _ & E')]; rewrite E' in H.
      * injection H as <-. right. left.
        apply race_confirmation in Hr. destruct Hr as (d & Hq & Hd & _).
        exists resp, (polls l1), d. repeat split; assumption.
      * exact (IH _ r H).
  - injection H as <-. left. cbn [settled settledAt]. split; [reflexivity|lia].
Qed.

Example slowNotFound_run :
  transactionSenderAndConfirmationWaiter
    (enoughFuel defaultParams) slowNotFound defaultParams 0
  = Some timedOutRun.
Proof. vm_compute. reflexivity. Qed.

Example confirmsThird_run :
  transactionSenderAndConfirmationWaiter
    (enoughFuel defaultParams) confirmsThird defaultParams 0
  = Some confirmedRun.
Proof. vm_compute. reflexivity. Qed.

(** X1: whatever the channel does and however the call ends, it has made
    at least one and at most [sendRetries + 1] sends (one, when
    [sendRetries] is negative). *)
Theorem broadcasts_bounded (fuel : nat) (ch : Channel) (p : Params)
  (t0 : Z) (r : Run) :
  transactionSenderAndConfirmationWaiter fuel ch p t0 = Some r ->
  1 <= broadcasts r <= Z.max 0 (sendRetries p) + 1.
Proof.
  unfold transactionSenderAndConfirmationWaiter.
  destruct (firstSend ch) as [d txid|d]; intro H.
  - apply (loop_broadcasts ch p txid _ _ _ r H). cbn [retries]. lia.
  - injection H as <-. cbn [broadcasts]. lia.
Qed.

Lemma broadcasts_bounded_witness :
  1 <= broadcasts timedOutRun <= Z.max 0 (sendRetries defaultParams) + 1.
Proof.
  apply (broadcasts_bounded (enoughFuel defaultParams) slowNotFound
           defaultParams 0 timedOutRun).
  vm_compute. reflexivity.
Defined.

(** X2: with a [sendInterval] that is not negative, every send of the loop
    comes more than [sendInterval] after the previous one, so the time
    from [start] to the end of the call is at least [sendInterval] times
    the number of sends after the first. *)
Theorem rebroadcasts_paced (fuel : nat) (ch : Channel) (p : Params)
  (t0 : Z) (r : Run) :
  0 <= sendInterval p ->
  transactionSenderAndConfirmationWaiter fuel ch p t0 = Some r ->
  (broadcasts r - 1) * sendInterval p <= settledAt r - startedAt r.
Proof.
  intro Hsi. unfold transactionSenderAndConfirmationWaiter.
  destruct (firstSend ch) as [d txid|d]; intro H.
  - destruct (loop_broadcasts ch p txid _ _ _ r H) as [-> _];
      [cbn [retries]; lia|].
    apply (loop_pacing ch p txid _ Hsi _ _ r H);
      cbn [retries lastSendTimestamp clock]; lia.
  - injection H as <-. cbn [broadcasts settledAt startedAt]. lia.
Qed.

Lemma rebroadcasts_paced_witness :
  (broadcasts timedOutRun - 1) * sendInterval defaultParams
  <= settledAt timedOutRun - startedAt timedOutRun.
Proof.
  apply (rebroadcasts_paced (enoughFuel defaultParams) slowNotFound
           defaultParams 0 timedOutRun).
  - vm_compute. discriminate.
  - vm_compute. reflexivity.
Defined.

(** X3: a response the call returns is one the channel gave: the
    returned [txid] is that of the first send, and some status query was
    answered with that very response before the fixed wait ran out. *)
Theorem confirmation_comes_from_channel (fuel : nat) (ch : Channel)
  (p : Params) (t0 : Z) (r : Run) (txid : Txid)
  (resp : TransactionResponse) :
  transactionSenderAndConfirmationWaiter fuel ch p t0 = Some r ->
  settled r = Fulfilled txid (Some resp) ->
  (exists d0, firstSend ch = Sent d0 txid)
  /\ exists i d,
       query ch i = Found d resp /\ Z.of_N d < CONFIRMATION_WAIT.
Proof.
  unfold transactionSenderAndConfirmationWaiter.
  destruct (firstSend ch) as [d0 txid0|d0]; intros H Hs.
  - destruct (loop_outcome ch p txid0 _ _ _ r H)
      as [[E _]|[(resp' & i & d & E & Hq & Hd)|(k & d & E & _)]];
      rewrite E in Hs; try discriminate Hs.
    injection Hs as <- <-. split; [exists d0; reflexivity|].
    exists i, d. split; assumption.
  - injection H as <-. discriminate Hs.
Qed.

Lemma confirmation_comes_from_channel_witness :
  (exists d0, firstSend confirmsThird = Sent d0 "tx"%string)
  /\ exists i d,
       query confirmsThird i = Found d (Confirmed 7)
       /\ Z.of_N d < CONFIRMATION_WAIT.
Proof.
  apply (confirmation_comes_from_channel (enoughFuel defaultParams)
           confirmsThird defaultParams 0 confirmedRun).
  - vm_compute. reflexivity.
  - reflexivity.
Defined.

(** X4: a null [transactionResponse] is never returned before the
    deadline: when the call returns without a confirmation, at least
    [timeout] milliseconds have passed since [start], whatever the channel
    did. *)
Theorem no_timeout_before_deadline (fuel : nat) (ch : Channel) (p : Params)
  (t0 : Z) (r : Run) (txid : Txid) :
  transactionSenderAndConfirmationWaiter fuel ch p t0 = Some r ->
  settled r = Fulfilled txid None ->
  timeout p <= settledAt r - startedAt r.
Proof.
  unfold transactionSenderAndConfirmationWaiter.
  destruct (firstSend ch) as [d0 txid0|d0]; intros H Hs.
  - destruct (loop_broadcasts ch p txid0 _ _ _ r H) as [-> _];
      [cbn [retries]; lia|].
    destruct (loop_outcome ch p txid0 _ _ _ r H)
      as [[_ Ht]|[(resp' & i & d & E & _)|(k & d & E & _)]];
      [exact Ht|rewrite E in Hs; discriminate Hs
      |rewrite E in Hs; discriminate Hs].
  - injection H as <-. discriminate Hs.
Qed.

Lemma no_timeout_before_deadline_witness :
  timeout defaultParams <= settledAt timedOutRun - startedAt timedOutRun.
Proof.
  apply (no_timeout_before_deadline (enoughFuel defaultParams) slowNotFound
           defaultParams 0 timedOutRun "tx"%string).
  - vm_compute. reflexivity.
  - reflexivity.
Defined.

(** X5: the call rejects only because a [sendRawTransaction] failed, the
    first one or one of the loop; no failure of a status query, and no
    timeout, ever makes it reject. *)
Theorem rejection_comes_from_send (fuel : nat) (ch : Channel) (p : Params)
  (t0 : Z) (r : Run) (e : Exn) :
  transactionSenderAndConfirmationWaiter fuel ch p t0 = Some r ->
  settled r = Rejected e ->
  e = NetworkError "sendRawTransaction"
  /\ ((exists d, firstSend ch = SendFails d)
      \/ exists k d, resend ch k = SendFails d).
Proof.
  unfold transactionSenderAndConfirmationWaiter.
  destruct (firstSend ch) as [d0 txid0|d0]; intros H Hs.
  - destruct (loop_outcome ch p txid0 _ _ _ r H)
      as [[E _]|[(resp' & i & d & E & _)|(k & d & E & Hk)]];
      rewrite E in Hs; try discriminate Hs.
    injection Hs as <-. split; [reflexivity|].
    right. exists k, d. exact Hk.
  - injection H as <-. cbn [settled] in Hs. injection Hs as <-.
    split; [reflexivity|]. left. exists d0. reflexivity.
Qed.

Lemma rejection_comes_from_send_witness :
  NetworkError "sendRawTransaction" = NetworkError "sendRawTransaction"
  /\ ((exists d, firstSend failingResend = SendFails d)
      \/ exists k d, resend failingResend k = SendFails d).
Proof.
  apply (rejection_comes_from_send (enoughFuel defaultParams) failingResend
           defaultParams 0 abortedRun).
  - vm_compute. reflexivity.
  - reflexivity.
Defined.

(** While no query has confirmed, [i] iterations take at most [i] times
    the longest iteration; the query that confirms ends the loop. *)
Lemma loop_confirms (ch : Channel) (p : Params) (txid : Txid) (start : Z)
  (n : nat) (d : N) (resp : TransactionResponse) (D : Z) :
  (forall k, exists dd t, resend ch k = Sent dd t) ->
  (forall k dd t, resend ch k = Sent dd t -> Z.of_N dd <= D) ->
  0 <= D ->
  (forall i, (i < n)%nat -> forall d' r', query ch i <> Found d' r') ->
  query ch n = Found d resp ->
  Z.of_N d < CONFIRMATION_WAIT ->
  Z.of_nat n * (D + CONFIRMATION_WAIT + timerDelay (pollInterval p))
  < timeout p ->
  forall (fuel : nat) (l : Loop) (r : Run),
    loop fuel ch p txid start l = Some r ->
    (polls l <= n)%nat ->
    clock l - start
    <= Z.of_nat (polls l)
       * (D + CONFIRMATION_WAIT + timerDelay (pollInterval p)) ->
    settled r = Fulfilled txid (Some resp)
    /\ settledAt r - start
       <= Z.of_nat n * (D + CONFIRMATION_WAIT + timerDelay (pollInterval p))
          + D + Z.of_N d.
Proof.
  intros Hsend HD HD0 Hbefore Hq Hd Htime.
  pose proof (timerDelay_positive (pollInterval p)) as Hdelay.
  set (B := D + CONFIRMATION_WAIT + timerDelay (pollInterval p)) in *.
  assert (HB : 0 <= B) by (unfold B, CONFIRMATION_WAIT; lia).
  induction fuel as [|fuel IH]; intros l r H Hpolls Hclock;
    [discriminate H|].
  cbn [loop] in H.
  assert (Hle : Z.of_nat (polls l) * B <= Z.of_nat n * B).
  { apply Z.mul_le_mono_nonneg_r; lia. }
  destruct (Z.ltb_spec (clock l - start) (timeout p)) as [Hin|Hout]; [|lia].
  destruct (iteration_shape ch p txid start l)
    as [(d' & Hf & _)|(l1 & s & E & Hs & Hc & Hp & Hl1)].
  - destruct (Hsend (Z.to_nat (retries l))) as (dd & t & E).
    rewrite E in Hf. discriminate Hf.
  - assert (HsD : s <= D).
    { destruct Hl1 as [[_ ->]|(_ & _ & _ & _ & dd & t & E' & ->)];
        [lia|exact (HD _ _ _ E')]. }
    rewrite E in H.
    destruct (poll_cases ch p txid start l1 s)
      as [(w & resp' & Hr & E')|(w & Hr & E')]; rewrite E' in H.
    + injection H as <-. cbn [settled settledAt].
      apply race_confirmation in Hr. destruct Hr as (d' & Hq' & _ & ->).
      rewrite Hp in Hq'.
      destruct (Nat.eq_dec (polls l) n) as [Heq|Hne].
      * rewrite Heq, Hq in Hq'. injection Hq' as <- <-.
        split; [reflexivity|]. lia.
      * exfalso. apply (Hbefore (polls l)) in Hq'; [exact Hq'|lia].
    + destruct (Nat.eq_dec (polls l) n) as [Heq|Hne].
      * exfalso. rewrite Hp, Heq, Hq in Hr. unfold race in Hr.
        rewrite confirmation_wait_delay in Hr.
        unfold CONFIRMATION_WAIT in Hd.
        destruct (Z.ltb_spec (Z.of_N d) 1500); [discriminate Hr|lia].
      * apply (IH _ r H); cbn [polls clock]; [lia|].
        pose proof (race_duration (query ch (polls l1))) as Hw.
        rewrite Hr in Hw. cbn [fst] in Hw.
        rewrite Hp, Nat2Z.inj_succ, Z.mul_succ_l. unfold B in *. lia.
Qed.

(** X6: on a channel that accepts every send within [D] ms and confirms
    the query of iteration [n] (counted from 0) in time, the call returns
    that confirmation, provided [n] iterations of the longest kind (a
    send, the fixed wait and the sleep) end before the deadline; it then
    returns no later than those [n] iterations, a send and the latency of
    the query after [start]. *)
Theorem confirmed_on_nth_query (fuel : nat) (ch : Channel) (p : Params)
  (t0 : Z) (n : nat) (d : N) (resp : TransactionResponse) (D : Z) :
  accepts ch ->
  (forall k dd t, resend ch k = Sent dd t -> Z.of_N dd <= D) ->
  0 <= D ->
  (forall i, (i < n)%nat -> forall d' r', query ch i <> Found d' r') ->
  query ch n = Found d resp ->
  Z.of_N d < CONFIRMATION_WAIT ->
  Z.of_nat n * (D + CONFIRMATION_WAIT + timerDelay (pollInterval p))
  < timeout p ->
  (enoughFuel p <= fuel)%nat ->
  exists r txid,
    transactionSenderAndConfirmationWaiter fuel ch p t0 = Some r
    /\ settled r = Fulfilled txid (Some resp)
    /\ settledAt r - startedAt r
       <= Z.of_nat n * (D + CONFIRMATION_WAIT + timerDelay (pollInterval p))
          + D + Z.of_N d.
Proof.
  intros [[d0 [txid Hfirst]] Hsend] HD HD0 Hbefore Hq Hd Htime Hfuel.
  destruct (delivery_settles ch p t0 fuel Hfuel) as [r Hr].
  exists r, txid. split; [exact Hr|].
  unfold transactionSenderAndConfirmationWaiter in Hr.
  rewrite Hfirst in Hr.
  destruct (loop_broadcasts ch p txid _ _ _ r Hr) as [-> _];
    [cbn [retries]; lia|].
  apply (loop_confirms ch p txid _ n d resp D Hsend HD HD0 Hbefore Hq Hd
           Htime _ _ r Hr); cbn [polls clock]; lia.
Qed.

Lemma confirmed_on_nth_query_witness :
  exists r txid,
    transactionSenderAndConfirmationWaiter
      (enoughFuel defaultParams) confirmsThird defaultParams 0 = Some r
    /\ settled r = Fulfilled txid (Some (Confirmed 7))
    /\ settledAt r - startedAt r
       <= Z.of_nat 2
          * (0 + CONFIRMATION_WAIT + timerDelay (pollInterval defaultParams))
          + 0 + Z.of_N 200.
Proof.
  apply (confirmed_on_nth_query (enoughFuel defaultParams) confirmsThird
           defaultParams 0 2 200%N (Confirmed 7) 0).
  - split; [exists 0%N, "tx"%string; reflexivity|].
    intro k. exists 0%N, "tx"%string. reflexivity.
  - intros k dd t E. injection E as <- _. lia.
  - lia.
  - intros i Hi d' r' E. cbn in E.
    destruct i as [|[|i]]; [discriminate E|discriminate E|lia].
  - reflexivity.
  - reflexivity.
  - reflexivity.
  - apply le_n.
Defined.

End DeliveryMore.

(** ** The payload, whatever the values *)

Module PayloadMore.

Import Js Payload JsFacts RoundingFacts PayloadFacts Invariants.

(** A payload that was built had its scaled values, as computed, in the
    ranges of their fields. *)
Lemma compose_ranges (price confidence : Q) (status : Z) (data : Bytes) :
  composeUpdatePriceTransaction price confidence status = Ok data ->
  (inject_Z (- 2 ^ 63) <= fmul price 100000000)%Q
  /\ (fmul price 100000000 < inject_Z (2 ^ 63))%Q
  /\ (0 <= fmul confidence 10000)%Q
  /\ (fmul confidence 10000 < inject_Z (2 ^ 64))%Q
  /\ 0 <= status < 2 ^ 32.
Proof.
  intro H. apply compose_steps in H.
  destruct H as (p & c & Ep & Ec & _ & Hs).
  apply ns64_encode_range in Ep; [|apply round64_representable].
  apply nu64_encode_range in Ec; [|apply round64_representable].
  destruct Ep as [Hp0 Hp1]. destruct Ec as [Hc0 Hc1]. auto.
Qed.

(** The writers throw nothing but a range error. *)
Lemma writeIntLE_throws (n : nat) (lo hi : Z) (value : Q) (e : Exn) :
  writeIntLE n lo hi value = Throw e -> e = RangeError.
Proof.
  unfold writeIntLE.
  destruct (Qltb (inject_Z hi) value || Qltb value (inject_Z lo));
    intro H; [injection H as <-; reflexivity|discriminate H].
Qed.

Lemma compose_throws (price confidence : Q) (status : Z) (e : Exn) :
  composeUpdatePriceTransaction price confidence status = Throw e ->
  e = RangeError.
Proof.
  unfold composeUpdatePriceTransaction, encode.
  cbn [Payload.instruction Payload.price Payload.confidence Payload.status].
  change (writeUInt8 0) with (Ok (A := Bytes) [0]). cbn [bind].
  unfold ns64_encode, nu64_encode, writeUInt32LE, writeInt32LE.
  destruct (divmodInt64 (fmul price 100000000)) as [ph pl].
  destruct (divmodInt64 (fmul confidence 10000)) as [ch cl].
  repeat match goal with
         | |- context [writeIntLE ?n ?lo ?hi ?v] =>
             let E := fresh "E" in
             destruct (writeIntLE n lo hi v) eqn:E;
             [|apply writeIntLE_throws in E; subst;
               cbn [bind]; intro H; injection H as <-; reflexivity]
         end.
  cbn [bind]. discriminate.
Qed.

(** X7: a payload that was built from a non-negative price has 21 bytes
    and reads back as instruction 0, the scaled price and the scaled
    confidence, as the code computes them in doubles, rounded down to
    integers, and the status; the three values then lie in the ranges of
    their fields. *)
Theorem built_payload_reads_back (price confidence : Q) (status : Z)
  (data : Bytes) :
  (0 <= price)%Q ->
  composeUpdatePriceTransaction price confidence status = Ok data ->
  List.length data = span
  /\ decode data = Some (readBack price confidence status)
  /\ 0 <= Qfloor (fmul price 100000000) < 2 ^ 63
  /\ 0 <= Qfloor (fmul confidence 10000) < 2 ^ 64
  /\ 0 <= status < 2 ^ 32.
Proof.
  intros H0 H. apply (payload_stores_floor _ _ _ _ H0) in H.
  destruct H as (-> & Hp & Hc & Hs).
  split; [rewrite !length_app, !length_le_bytes; reflexivity|].
  split; [apply decode_layout; [lia|assumption|assumption]|]. auto.
Qed.

Lemma built_payload_reads_back_witness :
  List.length
    [0; 120; 125; 1; 0; 0; 0; 0; 0; 0; 0; 0; 0; 0; 0; 0; 0; 1; 0; 0; 0]
  = span
  /\ decode
       [0; 120; 125; 1; 0; 0; 0; 0; 0; 0; 0; 0; 0; 0; 0; 0; 0; 1; 0; 0; 0]
     = Some (readBack (1 # 1024) 0 1)
  /\ 0 <= Qfloor (fmul (1 # 1024) 100000000) < 2 ^ 63
  /\ 0 <= Qfloor (fmul 0 10000) < 2 ^ 64
  /\ 0 <= 1 < 2 ^ 32.
Proof.
  apply (built_payload_reads_back (1 # 1024) 0 1).
  - discriminate.
  - vm_compute. reflexivity.
Defined.

(** The scaled price 0.3 * 1e8 is the double 30000000, and that is what
    the payload holds.  A negative price is not rounded down: the double
    nearest to -0.000000010000001 scales to the double nearest to
    -1.0000001, whose low word rounds to 4294967295, and the payload
    holds -1. *)
Example payload_of_rounded_prices :
  fmul (round64 (3 # 10)) 100000000 = 30000000 # 1
  /\ option_map d_price
       (match composeUpdatePriceTransaction (round64 (3 # 10)) 0 1 with
        | Ok data => decode data
        | Throw _ => None
        end) = Some 30000000
  /\ Qfloor (fmul (round64 (- (10000001 # 1000000000000000))) 100000000)
     = -2
  /\ option_map d_price
       (match composeUpdatePriceTransaction
                (round64 (- (10000001 # 1000000000000000))) 0 1 with
        | Ok data => decode data
        | Throw _ => None
        end) = Some (-1).
Proof. repeat split; vm_compute; reflexivity. Qed.

(** X8: a scaled price outside the signed 64-bit range, a scaled
    confidence that is negative or beyond the unsigned 64-bit range (the
    scaled values being those the code computes, in doubles), and a
    status outside the unsigned 32-bit range are refused with a range
    error: no payload is built, nothing wraps around. *)
Theorem out_of_range_refused (price confidence : Q) (status : Z) :
  (fmul price 100000000 < inject_Z (- 2 ^ 63))%Q
  \/ (inject_Z (2 ^ 63) <= fmul price 100000000)%Q
  \/ (fmul confidence 10000 < 0)%Q
  \/ (inject_Z (2 ^ 64) <= fmul confidence 10000)%Q
  \/ status < 0
  \/ 2 ^ 32 <= status ->
  composeUpdatePriceTransaction price confidence status = Throw RangeError.
Proof.
  intro Hout.
  destruct (composeUpdatePriceTransaction price confidence status)
    as [data|e] eqn:E.
  - exfalso. apply compose_ranges in E.
    destruct E as (Hp0 & Hp1 & Hc0 & Hc1 & Hs).
    destruct Hout as [H|[H|[H|[H|[H|H]]]]]; try lia.
    + exact (Qlt_not_le _ _ H Hp0).
    + exact (Qlt_not_le _ _ Hp1 H).
    + exact (Qlt_not_le _ _ H Hc0).
    + exact (Qlt_not_le _ _ Hc1 H).
  - apply compose_throws in E. rewrite E. reflexivity.
Qed.

Lemma out_of_range_refused_witness :
  composeUpdatePriceTransaction 1 (- (1 # 100)) 1 = Throw RangeError.
Proof.
  apply (out_of_range_refused 1 (- (1 # 100)) 1).
  right. right. left. vm_compute. reflexivity.
Defined.

(** X9: two calls with non-negative prices that build the same payload
    had the same status, and scaled prices and confidences (as computed)
    with the same integer part: values that differ in one of these never
    share a payload. *)
Theorem payload_injective (price price' confidence confidence' : Q)
  (status status' : Z) (data : Bytes) :
  (0 <= price)%Q ->
  (0 <= price')%Q ->
  composeUpdatePriceTransaction price confidence status = Ok data ->
  composeUpdatePriceTransaction price' confidence' status' = Ok data ->
  Qfloor (fmul price 100000000) = Qfloor (fmul price' 100000000)
  /\ Qfloor (fmul confidence 10000) = Qfloor (fmul confidence' 10000)
  /\ status = status'.
Proof.
  intros H0 H0' H H'.
  apply (payload_stores_floor _ _ _ _ H0) in H.
  destruct H as (E & Hp & Hc & Hs).
  apply (payload_stores_floor _ _ _ _ H0') in H'.
  destruct H' as (E' & Hp' & Hc' & Hs').
  assert (D : decode data
              = Some {| d_instruction := 0;
                        d_price := Qfloor (fmul price 100000000);
                        d_confidence := Qfloor (fmul confidence 10000);
                        d_status := status |}).
  { rewrite E. apply decode_layout; [lia|assumption|assumption]. }
  assert (D' : decode data
               = Some {| d_instruction := 0;
                         d_price := Qfloor (fmul price' 100000000);
                         d_confidence := Qfloor (fmul confidence' 10000);
                         d_status := status' |}).
  { rewrite E'. apply decode_layout; [lia|assumption|assumption]. }
  rewrite D in D'. injection D' as E1 E2 E3. auto.
Qed.

Lemma payload_injective_witness :
  Qfloor (fmul (1 # 1024) 100000000)
  = Qfloor (fmul (1048577 # 1073741824) 100000000)
  /\ Qfloor (fmul 0 10000) = Qfloor (fmul 0 10000)
  /\ 1 = 1.
Proof.
  apply (payload_injective (1 # 1024) (1048577 # 1073741824) 0 0 1 1
           [0; 120; 125; 1; 0; 0; 0; 0; 0; 0; 0; 0; 0; 0; 0; 0; 0; 1; 0; 0; 0]).
  - discriminate.
  - discriminate.
  - vm_compute. reflexivity.
  - vm_compute. reflexivity.
Defined.

End PayloadMore.

(** ** The publisher over whole ticks and runs *)

Module PublisherMore.

Import Js Oracle Scenarios MoreScenarios Invariants JsFacts RoundingFacts
  PublisherFacts PayloadFacts PayloadMore.

Lemma sameFields_refl (m : Main) : sameFields m m.
Proof. repeat split. Qed.

(** What the first half of a tick can do: leave the fields and the
    deliveries as they are, whether it returns or throws; or publish, in
    which case it returns with [lastUpdate] at [now] and one delivery
    more. *)
Lemma publish_outcomes (s : Script) (cfg : Config) (t : TickInput)
  (m m1 : Main) (r : Result unit) :
  publish s cfg t m = (r, m1) ->
  (sameFields m m1 /\ submissions m1 = submissions m)
  \/ (r = Ok tt
      /\ lastUpdate m1 = now t
      /\ statusKnown m1
      /\ needUpdate cfg m (lastPrice m1) (now t) = Ok true
      /\ exists data,
           Payload.composeUpdatePriceTransaction
             (oraclePrice s (lastPrice m1)) (confidence cfg) (lastStatus m1)
           = Ok data
           /\ submissions m1 = data :: submissions m).
Proof.
  destruct s; cbn [publish].
  - unfold publishJupiter. destruct (quote t) as [| |bid ask].
    + intro H. injection H as <- <-. left. split; [apply sameFields_refl|reflexivity].
    + intro H. injection H as <- <-. left. split; [apply sameFields_refl|reflexivity].
    + rewrite needUpdate_emit.
      destruct (needUpdate cfg m (getMarkPrice bid ask) (now t))
        as [[|]|e] eqn:Hneed.
      * destruct (updatePrice_cases JupiterScript cfg (blockhashForUpdate t)
                    (getMarkPrice bid ask) (statusOf cfg bid ask) (now t)
                    (emit (DebugQuote bid ask (getMarkPrice bid ask)) m))
          as [(data & h & Hdata & _ & E)|(e & E)]; rewrite E;
          intro H; injection H as <- <-.
        -- right. cbn [lastUpdate lastPrice lastStatus].
           split; [reflexivity|]. split; [reflexivity|].
           split; [exact (statusOf_values cfg bid ask)|].
           split; [exact Hneed|]. exists data. split; [exact Hdata|reflexivity].
        -- left. split; [repeat split|reflexivity].
      * intro H. injection H as <- <-. left. split; [repeat split|reflexivity].
      * intro H. injection H as <- <-. left. split; [repeat split|reflexivity].
  - unfold publishMsol. destruct (marinade t) as [|p].
    + intro H. injection H as <- <-. left. split; [apply sameFields_refl|reflexivity].
    + destruct (truthyQ p).
      * destruct (needUpdate cfg m p (now t)) as [[|]|e] eqn:Hneed.
        -- destruct (updatePrice_cases MsolScript cfg (blockhashForUpdate t)
                       p 1 (now t) m)
             as [(data & h & Hdata & _ & E)|(e & E)]; rewrite E;
             intro H; injection H as <- <-.
           ++ right. cbn [lastUpdate lastPrice lastStatus].
              split; [reflexivity|]. split; [reflexivity|].
              split; [right; reflexivity|].
              split; [exact Hneed|]. exists data.
              split; [exact Hdata|reflexivity].
           ++ left. split; [repeat split|reflexivity].
        -- intro H. injection H as <- <-. left.
           split; [apply sameFields_refl|reflexivity].
        -- intro H. injection H as <- <-. left.
           split; [apply sameFields_refl|reflexivity].
      * intro H. injection H as <- <-. left.
        split; [apply sameFields_refl|reflexivity].
Qed.

(** What the second half of a tick can do: nothing to the fields and the
    deliveries (the rule is silent, or fires and throws), or the disabling
    publish. *)
Lemma disable_outcomes (s : Script) (cfg : Config) (bh : BlockhashOutcome)
  (now : Z) (m m1 : Main) (r : Result unit) :
  disableIfInactive s cfg bh now m = (r, m1) ->
  (sameFields m m1 /\ submissions m1 = submissions m
   /\ (stale cfg m now \/ (r = Ok tt /\ m1 = m)))
  \/ (r = Ok tt
      /\ stale cfg m now
      /\ lastUpdate m1 = now
      /\ lastStatus m1 = 0
      /\ lastPrice m1 = lastPrice m
      /\ exists data,
           Payload.composeUpdatePriceTransaction
             (oraclePrice s (lastPrice m)) (confidence cfg) 0 = Ok data
           /\ submissions m1 = data :: submissions m).
Proof.
  unfold disableIfInactive.
  destruct (inactive cfg m now) eqn:Hin.
  - apply inactive_stale in Hin.
    destruct (updatePrice_cases s cfg bh (lastPrice m) 0 now
                (emit (WarnDisabling (inactiveDuration cfg)) m))
      as [(data & h & Hdata & _ & E)|(e & E)]; rewrite E;
      intro H; injection H as <- <-.
    + right. cbn [lastUpdate lastPrice lastStatus].
      repeat split; try assumption; try apply Hin.
      exists data. split; [exact Hdata|reflexivity].
    + left. split; [repeat split|]. split; [reflexivity|]. left. exact Hin.
  - intro H. injection H as <- <-. left.
    split; [apply sameFields_refl|]. split; [reflexivity|]. right. auto.
Qed.

(** A state whose [lastUpdate] is [now] is not stale when
    [inactiveDuration] is not negative. *)
Lemma fresh_not_stale (cfg : Config) (m : Main) (now : Z) :
  0 <= inactiveDuration cfg -> lastUpdate m = now -> ~ stale cfg m now.
Proof. unfold stale. intros H0 H [_ [H1 _]]. lia. Qed.

Lemma tick_unfold (s : Script) (cfg : Config) (t : TickInput) (m : Main) :
  tick s cfg t m
  = match publish s cfg t m with
    | (Ok _, m1) => disableIfInactive s cfg (blockhashForDisable t) (now t) m1
    | (Throw e, m1) => (Throw e, m1)
    end.
Proof. reflexivity. Qed.

Lemma tick_statusKnown (s : Script) (cfg : Config) (t : TickInput)
  (m : Main) :
  statusKnown m -> statusKnown (snd (tick s cfg t m)).
Proof.
  intro Hm. rewrite tick_unfold.
  destruct (publish s cfg t m) as [r m1] eqn:Hpub.
  assert (Hm1 : statusKnown m1).
  { destruct (publish_outcomes s cfg t m m1 r Hpub)
      as [[(_ & _ & E) _]|(_ & _ & H & _)]; [|exact H].
    unfold statusKnown. rewrite E. exact Hm. }
  destruct r as [u|e]; [|exact Hm1].
  destruct (disableIfInactive s cfg (blockhashForDisable t) (now t) m1)
    as [r2 m2] eqn:Hdis.
  destruct (disable_outcomes s cfg _ _ m1 m2 r2 Hdis)
    as [[(_ & _ & E) _]|(_ & _ & _ & E & _)]; cbn [snd]; unfold statusKnown.
  - rewrite E. exact Hm1.
  - left. exact E.
Qed.

Lemma run_statusKnown (s : Script) (cfg : Config) :
  forall (ticks : list TickInput) (m : Main),
    statusKnown m -> statusKnown (run s cfg ticks m).
Proof.
  induction ticks as [|t ticks IH]; intros m Hm; [exact Hm|].
  cbn [run]. pose proof (tick_statusKnown s cfg t m Hm) as H.
  destruct (tick s cfg t m) as [[u|e] m1]; apply IH; exact H.
Qed.

(** X10: [lastStatus] is always 0 or 1: if it is so when [main] is
    entered, as it is at construction, it is so when [main] is left,
    whatever the configuration, the observations and the failures met. *)
Theorem status_always_known (s : Script) (config : option Config)
  (tokensListed : bool) (ticks : list TickInput) (m : Main) :
  statusKnown m -> statusKnown (main s config tokensListed ticks m).
Proof.
  intro Hm. unfold main.
  destruct config as [cfg|]; [|exact Hm].
  destruct (refusesToStart cfg); [exact Hm|].
  destruct s; [destruct tokensListed; [|exact Hm]|];
    apply run_statusKnown; exact Hm.
Qed.

Lemma status_always_known_witness :
  statusKnown (main JupiterScript (Some twoMinutesConfig) true twoTicks
                 initialMain).
Proof.
  apply (status_always_known JupiterScript (Some twoMinutesConfig) true
           twoTicks initialMain).
  left. reflexivity.
Defined.

Lemma tick_submissions (s : Script) (cfg : Config) (t : TickInput)
  (m : Main) :
  0 <= inactiveDuration cfg ->
  exists new,
    submissions (snd (tick s cfg t m)) = new ++ submissions m
    /\ (List.length new <= 1)%nat.
Proof.
  intro Hid. rewrite tick_unfold.
  destruct (publish s cfg t m) as [r m1] eqn:Hpub.
  destruct (publish_outcomes s cfg t m m1 r Hpub)
    as [[_ Hsub]|(-> & Hnow & _ & _ & data & _ & Hsub)].
  - destruct r as [u|e]; [|exists []; split; [exact Hsub|auto]].
    destruct (disableIfInactive s cfg (blockhashForDisable t) (now t) m1)
      as [r2 m2] eqn:Hdis.
    destruct (disable_outcomes s cfg _ _ m1 m2 r2 Hdis)
      as [(_ & E & _)|(_ & _ & _ & _ & _ & data & _ & E)]; cbn [snd].
    + exists []. rewrite E, Hsub. auto.
    + exists [data]. rewrite E, Hsub. auto.
  - destruct (disableIfInactive s cfg (blockhashForDisable t) (now t) m1)
      as [r2 m2] eqn:Hdis.
    destruct (disable_outcomes s cfg _ _ m1 m2 r2 Hdis)
      as [(_ & E & _)|(_ & Hst & _)]; cbn [snd].
    + exists [data]. rewrite E, Hsub. auto.
    + exfalso. exact (fresh_not_stale cfg m1 (now t) Hid Hnow Hst).
Qed.

(** X11: with an [inactiveDuration] that is not negative, the loop
    launches at most one delivery per tick, and the deliveries launched
    before stay as they were: a tick that publishes an observation is
    never followed, in the same tick, by the disabling publish. *)
Theorem one_delivery_per_tick (s : Script) (cfg : Config) :
  0 <= inactiveDuration cfg ->
  forall (ticks : list TickInput) (m : Main),
  exists new,
    submissions (run s cfg ticks m) = new ++ submissions m
    /\ (List.length new <= List.length ticks)%nat.
Proof.
  intro Hid. induction ticks as [|t ticks IH]; intro m.
  - exists []. auto.
  - cbn [run].
    destruct (tick_submissions s cfg t m Hid) as (new & Hnew & Hlen).
    destruct (tick s cfg t m) as [[u|e] m1]; cbn [snd] in Hnew.
    + destruct (IH (emit (Slept (fetchInterval cfg)) m1)) as (new' & E & Hl).
      exists (new' ++ new). rewrite E, <- app_assoc.
      split; [f_equal; exact Hnew|].
      rewrite length_app. cbn [List.length]. lia.
    + destruct (IH (emit (Slept OUTER_INTERVAL)
                     (emit (ErrorLogged "error in main persistent loop") m1)))
        as (new' & E & Hl).
      exists (new' ++ new). rewrite E, <- app_assoc.
      split; [f_equal; exact Hnew|].
      rewrite length_app. cbn [List.length]. lia.
Qed.

Lemma one_delivery_per_tick_witness :
  exists new,
    submissions (run JupiterScript twoMinutesConfig twoTicks initialMain)
    = new ++ submissions initialMain
    /\ (List.length new <= List.length twoTicks)%nat.
Proof.
  apply (one_delivery_per_tick JupiterScript twoMinutesConfig).
  vm_compute. discriminate.
Defined.

(** X12: once the inactivity rule has fired and its publish has returned,
    the status is 0 and the rule stays silent at every later time and
    whatever the connection does: the oracle is disabled once, not at
    every tick. *)
Theorem disabling_not_repeated (s : Script) (cfg : Config)
  (bh : BlockhashOutcome) (now : Z) (m m2 : Main) :
  stale cfg m now ->
  disableIfInactive s cfg bh now m = (Ok tt, m2) ->
  forall (bh' : BlockhashOutcome) (now' : Z),
    disableIfInactive s cfg bh' now' m2 = (Ok tt, m2).
Proof.
  intros Hst H bh' now'. unfold disableIfInactive in H.
  apply inactive_stale in Hst. rewrite Hst in H.
  destruct (updatePrice_cases s cfg bh (lastPrice m) 0 now
              (emit (WarnDisabling (inactiveDuration cfg)) m))
    as [(data & h & _ & _ & E)|(e & E)]; rewrite E in H;
    [|discriminate H].
  injection H as <-. unfold disableIfInactive, inactive.
  cbn [lastStatus]. rewrite andb_false_r. reflexivity.
Qed.

Lemma disabling_not_repeated_witness :
  disableIfInactive JupiterScript twoMinutesConfig BlockhashFails 9999999
    disabledMain
  = (Ok tt, disabledMain).
Proof.
  apply (disabling_not_repeated JupiterScript twoMinutesConfig
           (LatestBlockhash "h") 1120001 (publishedAt 1000000 100 1)).
  - unfold stale. simpl. lia.
  - vm_compute. reflexivity.
Defined.



Lemma deviation_unchanged (price : Q) : (deviation price price == 0)%Q.
Proof.
  unfold deviation, fmul, fdiv, fsub.
  rewrite (round64_zero (price - price)) by ring.
  rewrite (round64_zero (0 / price)) by (unfold Qdiv; ring).
  rewrite (round64_zero (0 * 100)) by reflexivity.
  reflexivity.
Qed.

(** X14: after a publish of a nonzero price, and with a threshold that is
    not negative, [needUpdate] answers false for the same price at every
    time up to [updateInterval] after the publish: an unchanged price is
    not sent again before the forced update is due. *)
Theorem unchanged_price_not_republished (s : Script) (cfg : Config)
  (bh : BlockhashOutcome) (price : Q) (status now now' : Z) (m m' : Main) :
  updatePrice s cfg bh price status now m = (Ok tt, m') ->
  ~ (price == 0)%Q ->
  (0 <= updateThreshold cfg)%Q ->
  now' <= now + updateInterval cfg ->
  needUpdate cfg m' price now' = Ok false.
Proof.
  intros H Hp Hth Hnow.
  destruct (updatePrice_cases s cfg bh price status now m)
    as [(data & h & _ & _ & E)|(e & E)]; rewrite E in H;
    [|discriminate H].
  injection H as <-. unfold needUpdate. cbn [lastUpdate lastPrice].
  destruct (Z.ltb_spec (now + updateInterval cfg) now'); [lia|].
  apply truthyQ_nonzero in Hp. rewrite Hp. f_equal.
  apply Qltb_ge. rewrite deviation_unchanged. exact Hth.
Qed.

Lemma unchanged_price_not_republished_witness :
  needUpdate scenarioConfig jupiterPublishedMain 102 1061000 = Ok false.
Proof.
  apply (unchanged_price_not_republished JupiterScript scenarioConfig
           (LatestBlockhash "h") 102 1 1001000 1061000
           (publishedAt 1000000 100 1)).
  - vm_compute. reflexivity.
  - intro H. discriminate H.
  - discriminate.
  - vm_compute. discriminate.
Defined.



(** The price put in the transaction for a non-negative price is not
    negative. *)
Lemma oraclePrice_nonneg (s : Script) (price : Q) :
  (0 <= price)%Q -> (0 <= oraclePrice s price)%Q.
Proof.
  intro H. destruct s; cbn [oraclePrice]; [exact H|].
  destruct (truthyQ price); [|apply Qle_refl].
  unfold fdiv. apply round64_nonneg.
  unfold Qdiv. rewrite Qmult_1_l. apply Qinv_le_0_compat. exact H.
Qed.

(** X16: every delivery [updatePrice] launches for a non-negative price
    carries a payload of 21 bytes that reads back as instruction 0, the
    integer part of the oracle price times 1e8 (the price itself in the
    Jupiter script, its inverse in the mSOL script, which still keeps the
    price itself in [lastPrice]), the integer part of the confidence times
    1e4, both products as the code computes them in doubles, and the
    status given. *)
Theorem submitted_payload_reads_back (s : Script) (cfg : Config)
  (bh : BlockhashOutcome) (price : Q) (status now : Z) (m m' : Main) :
  (0 <= price)%Q ->
  updatePrice s cfg bh price status now m = (Ok tt, m') ->
  lastPrice m' = price
  /\ exists data,
       submissions m' = data :: submissions m
       /\ List.length data = Payload.span
       /\ Payload.decode data
          = Some (readBack (oraclePrice s price) (confidence cfg) status).
Proof.
  intros H0 H.
  destruct (updatePrice_cases s cfg bh price status now m)
    as [(data & h & Hdata & _ & E)|(e & E)]; rewrite E in H;
    [|discriminate H].
  injection H as <-. split; [reflexivity|].
  exists data. split; [reflexivity|].
  apply (payload_stores_floor _ _ _ _ (oraclePrice_nonneg s price H0))
    in Hdata.
  destruct Hdata as (-> & Hp & Hc & Hs).
  split; [rewrite !length_app, !length_le_bytes; reflexivity|].
  apply decode_layout; [lia|assumption|assumption].
Qed.

Lemma submitted_payload_reads_back_witness :
  lastPrice msolPublishedMain = 102%Q
  /\ exists data,
       submissions msolPublishedMain
       = data :: submissions (publishedAt 1000000 100 1)
       /\ List.length data = Payload.span
       /\ Payload.decode data
          = Some (readBack (oraclePrice MsolScript 102)
                    (confidence scenarioConfig) 1).
Proof.
  apply (submitted_payload_reads_back MsolScript scenarioConfig
           (LatestBlockhash "h") 102 1 1001000
           (publishedAt 1000000 100 1)).
  - discriminate.
  - vm_compute. reflexivity.
Defined.

(** X17: with an [inactiveDuration] that is not negative, a tick that
    throws has launched no delivery and has left [lastPrice],
    [lastStatus] and [lastUpdate] as they were: the outer loop resumes
    from the state of the last completed publish. *)
Theorem throwing_tick_changes_nothing (s : Script) (cfg : Config)
  (t : TickInput) (m m' : Main) (e : Exn) :
  0 <= inactiveDuration cfg ->
  tick s cfg t m = (Throw e, m') ->
  sameFields m m' /\ submissions m' = submissions m.
Proof.
  intros Hid H. rewrite tick_unfold in H.
  destruct (publish s cfg t m) as [r m1] eqn:Hpub.
  destruct (publish_outcomes s cfg t m m1 r Hpub)
    as [[Hf Hsub]|(-> & Hnow & _)].
  - destruct r as [u|e'].
    + destruct (disable_outcomes s cfg _ _ m1 m' (Throw e) H)
        as [(Hf' & Hsub' & _)|(Habs & _)]; [|discriminate Habs].
      destruct Hf as (F1 & F2 & F3). destruct Hf' as (G1 & G2 & G3).
      split; [repeat split; congruence|congruence].
    + injection H as <- <-. split; assumption.
  - exfalso.
    destruct (disable_outcomes s cfg _ _ m1 m' (Throw e) H)
      as [(_ & _ & [Hst|[Habs _]])|(Habs & _)];
      [|discriminate Habs|discriminate Habs].
    exact (fresh_not_stale cfg m1 (now t) Hid Hnow Hst).
Qed.

Lemma throwing_tick_changes_nothing_witness :
  sameFields (publishedAt 1000000 100 1) failedPublishMain
  /\ submissions failedPublishMain
     = submissions (publishedAt 1000000 100 1).
Proof.
  apply (throwing_tick_changes_nothing JupiterScript twoMinutesConfig
           noBlockhashTick (publishedAt 1000000 100 1) _
           (NetworkError "getLatestBlockhash")).
  - vm_compute. discriminate.
  - vm_compute. reflexivity.
Defined.

End PublisherMore.

(** ** Route selection *)

Module RoutingFacts.

Import Routing.

Lemma not_direct_empty (ri : RouteInfo) :
  marketInfos ri = [] -> ~ direct ri.
Proof. intros E (mi & H & _). congruence. Qed.

Lemma not_direct_split (ri : RouteInfo) (mi : MarketInfo)
  (rest : list MarketInfo) :
  marketInfos ri = mi :: rest -> isSplitTradeAmm mi = true -> ~ direct ri.
Proof. intros E Hs (mi' & H & Hn). congruence. Qed.

Lemma not_direct_long (ri : RouteInfo) (mi mi' : MarketInfo)
  (rest : list MarketInfo) :
  marketInfos ri = mi :: mi' :: rest -> ~ direct ri.
Proof. intros E (mi0 & H & _). congruence. Qed.

(** X18: [getBestRoute] returns the first route of the list that has
    exactly one market, that market not a split trade: the routes before
    it are all multi-hop, empty or split; it returns nothing exactly when
    no route of the list is of that kind.  A multi-hop or split route is
    never returned. *)
Theorem getBestRoute_first_direct (routesInfos : list RouteInfo) :
  match getBestRoute routesInfos with
  | Some ri =>
      direct ri
      /\ exists before after,
           routesInfos = before ++ ri :: after
           /\ Forall (fun r => ~ direct r) before
  | None => Forall (fun r => ~ direct r) routesInfos
  end.
Proof.
  induction routesInfos as [|ri rest IH]; [constructor|].
  assert (Hskip : ~ direct ri ->
                  match getBestRoute rest with
                  | Some r =>
                      direct r
                      /\ exists before after,
                           ri :: rest = before ++ r :: after
                           /\ Forall (fun r => ~ direct r) before
                  | None => Forall (fun r => ~ direct r) (ri :: rest)
                  end).
  { intro Hn. destruct (getBestRoute rest) as [r|].
    - destruct IH as (Hd & before & after & -> & Hb).
      split; [exact Hd|]. exists (ri :: before), after.
      split; [reflexivity|]. constructor; assumption.
    - constructor; assumption. }
  cbn [getBestRoute].
  destruct (marketInfos ri) as [|mi [|mi' more]] eqn:E; cbn [List.length Nat.eqb].
  - apply Hskip. exact (not_direct_empty ri E).
  - destruct (isSplitTradeAmm mi) eqn:Hs; cbn [negb].
    + apply Hskip. exact (not_direct_split ri mi [] E Hs).
    + split; [exists mi; split; assumption|].
      exists [], rest. split; [reflexivity|constructor].
  - apply Hskip. exact (not_direct_long ri mi mi' more E).
Qed.

End RoutingFacts.

(** ** The sample script *)

Module IndexScriptFacts.

Import IndexScript.

Ltac step_loop T :=
  match goal with
  | |- context [done T ?c] => destruct (done T c) eqn:?
  end.

(** X19: the sample script always ends: with or without a configuration
    and whenever the interrupt comes, it sleeps at least once and at most
    five times, logs the loops 1 to k in order and then the closing line,
    and is left k seconds after it was entered; without an interrupt k
    is 5; a missing configuration only removes the three lines that
    print it. *)
Theorem sample_script_ends {C : Type} (config : option C)
  (interruptAt : option Z) (t0 : Z) :
  exists k : nat,
    (1 <= k <= 5)%nat
    /\ (interruptAt = None -> k = 5%nat)
    /\ main config interruptAt t0
       = ((match config with
           | Some _ => [ConfigHeader; ConfigSolana; ConfigFtx]
           | None => []
           end) ++ map LoopLine (seq 1 k) ++ [DoneLine],
          t0 + 1000 * Z.of_nat k).
Proof.
  unfold main. cbn [loopFrom Nat.add].
  change (timerDelay 1000) with 1000.
  repeat step_loop interruptAt;
    [exists 1%nat|exists 2%nat|exists 3%nat|exists 4%nat|exists 5%nat
    |exists 5%nat];
    (split; [lia|]);
    (split;
     [ intros ->; try reflexivity; discriminate
     | cbn [map seq]; f_equal; lia ]).
Qed.

(** X20: an interrupt that comes while the sample script runs makes it
    end with the sleep in progress: the script is left at or after the
    interrupt and less than a second after it. *)
Theorem sample_script_interrupted {C : Type} (config : option C)
  (interruptedAt t0 : Z) :
  t0 < interruptedAt <= t0 + 5000 ->
  interruptedAt <= snd (main config (Some interruptedAt) t0)
                < interruptedAt + 1000.
Proof.
  intro H. unfold main. cbn [loopFrom Nat.add done].
  change (timerDelay 1000) with 1000.
  repeat match goal with
         | |- context [?a <=? ?b] => destruct (Z.leb_spec a b)
         end; cbn [snd]; lia.
Qed.

Lemma sample_script_interrupted_witness :
  2500 <= snd (main (Some tt) (Some 2500) 0) < 2500 + 1000.
Proof.
  apply (sample_script_interrupted (Some tt) 2500 0). lia.
Defined.

Example sample_script_interrupted_at_2500 :
  main (@None unit) (Some 2500) 0
  = ([LoopLine 1; LoopLine 2; LoopLine 3; DoneLine], 3000).
Proof. reflexivity. Qed.

End IndexScriptFacts.
